(** * The product image enhancer: mask generation and its surroundings

    A shallow embedding of [src/mask_generator.py] (class [MaskGenerator])
    and of [src/utils.py], together with the library operations the mask
    pipeline calls: the NumPy threshold expression, the PIL image
    conversions, and OpenCV's 8-bit bilinear resize and 3x3 dilation.

    Arrays are row lists of 8-bit samples kept as [Z]; image sizes are
    [nat]; every library call that can raise returns a sum whose left
    side is the exception.  Effects (clock, file system, directories) are
    threaded through a small state, log and exception monad.  An image
    carries the transparent colour of its file, which the conversion to
    RGBA turns into alpha 0; paths are joined and directories made as
    pathlib does on a POSIX system without symbolic links.

    Around the mask generator the development also covers the retry loop
    of [src/fashion_trend_analyzer.py], the polling loop of
    [src/background_generator.py], the text filters and the post
    extraction of [src/reddit_data_collector.py], the recommendation
    table of [src/main.py], and the time-stamped file names by which the
    latest result file is found.  Python text is a list of characters
    with code points below 256; the loops are driven by oracles for what
    the network answers and what the clock shows. *)

From Stdlib Require Import String Ascii ZArith List Lia Bool.
Import ListNotations.
Local Open Scope Z_scope.

(* ================================================================== *)
(** ** Exceptions, the outside world, and the effect monad            *)
(* ================================================================== *)

Inductive Exception : Type :=
| FileNotFoundError
| UnidentifiedImageError
| OSError
| IndexError
| cv2_error
| FileExistsError
| NotADirectoryError
| ValueError_null_byte.   (* ValueError: embedded null byte *)

(** Arrays as NumPy has them after [np.array] of a single band: a list of
    rows.  [ndarray] values are 8-bit samples unless noted. *)
Definition ndarray : Type := list (list Z).

(** PIL image modes the model covers. *)
Inductive Mode : Type := L | LA | RGB | RGBA.

(** [im.info['transparency']]: the colour a file without alpha channel
    declares transparent (the tRNS chunk of a PNG), one value for a gray
    image and three for a colour image. *)
Inductive Transparency : Type :=
| TransparentGray (v : Z)
| TransparentColour (r g b : Z).

(** An image as its list of bands (one plane per channel, all of the same
    shape) and the transparent colour it carries, if any. *)
Record PILImage : Type := mkImageInfo {
  mode : Mode;
  bands : list ndarray;
  transparency : option Transparency
}.

(** An image that carries no transparent colour. *)
Abbreviation mkImage m b := (mkImageInfo m b None).

(** What a path of the file system holds: bytes no decoder identifies, a
    file whose header parses but whose pixel data cannot be loaded, or
    the encoding of an image. *)
Inductive File : Type :=
| NotAnImage
| Truncated
| Encoded (im : PILImage).

Record World : Type := mkWorld {
  wall_clock : string;
  files : string -> option File;
  directories : list string
}.

(** Observable library calls, in the order they happen. *)
Inductive Event : Type :=
| EvNow
| EvOpen (path : string)
| EvMkdir (path : string).

Definition M (A : Type) : Type := World -> World * list Event * (Exception + A).

Definition ret {A} (a : A) : M A := fun w => (w, [], inr a).

Definition raise {A} (e : Exception) : M A := fun w => (w, [], inl e).

Definition bind {A B} (c : M A) (k : A -> M B) : M B :=
  fun w =>
    match c w with
    | (w1, l1, inl e) => (w1, l1, inl e)
    | (w1, l1, inr a) =>
        match k a w1 with
        | (w2, l2, r) => (w2, (l1 ++ l2)%list, r)
        end
    end.

(** A library call that touches nothing but may raise. *)
Definition lift {A} (r : Exception + A) : M A := fun w => (w, [], r).

(** Recording a library call, and reading the world. *)
Definition tell (e : Event) : M unit := fun w => (w, [e], inr tt).

Definition get_world : M World := fun w => (w, [], inr w).

Definition put_world (w' : World) : M unit := fun _ => (w', [], inr tt).

Notation "x <- c ;; k" := (bind c (fun x => k))
  (at level 61, c at next level, right associativity).
Notation "'_' <- c ;; k" := (bind c (fun _ => k))
  (at level 61, c at next level, right associativity).

(* ================================================================== *)
(** ** Arrays                                                          *)
(* ================================================================== *)

Definition nrows (a : ndarray) : nat := length a.
Definition ncols (a : ndarray) : nat := length (hd [] a).

(** The array of [h] rows and [w] columns whose entry at row [y], column
    [x] is [f y x]. *)
Definition tabulate (h w : nat) (f : nat -> nat -> Z) : ndarray :=
  map (fun y => map (f y) (seq 0 w)) (seq 0 h).

(** Entry at row [y], column [x]; the callers stay inside the array. *)
Definition item (a : ndarray) (y x : Z) : Z :=
  nth (Z.to_nat x) (nth (Z.to_nat y) a []) 0.

Definition rectangular (h w : nat) (a : ndarray) : Prop :=
  length a = h /\ Forall (fun r => length r = w) a.

Definition rectangularb (h w : nat) (a : ndarray) : bool :=
  Nat.eqb (length a) h && forallb (fun r => Nat.eqb (length r) w) a.

Definition uint8b (v : Z) : bool := (0 <=? v) && (v <=? 255).

Module np.

(** [a > t], elementwise. *)
Definition greater (a : ndarray) (t : Z) : list (list bool) :=
  map (map (fun v => v >? t)) a.

(** [np.where(cond, x, y)] with scalar [x] and [y]. *)
Definition where_ (cond : list (list bool)) (x y : Z) : ndarray :=
  map (map (fun c : bool => if c then x else y)) cond.

(** [.astype(np.uint8)]: reduction modulo 256. *)
Definition astype_uint8 (a : ndarray) : ndarray :=
  map (map (fun v => v mod 256)) a.

(** [np.ones((h, w), np.uint8)]. *)
Definition ones (h w : nat) : ndarray := tabulate h w (fun _ _ => 1).

(** [np.array(im)] of a single-band image: the band itself. *)
Definition array (im : PILImage) : ndarray := hd [] (bands im).

End np.

(* ================================================================== *)
(** ** PIL images                                                      *)
(* ================================================================== *)

Module Image.

Definition nbands (m : Mode) : nat :=
  match m with L => 1 | LA => 2 | RGB => 3 | RGBA => 4 end%nat.

(** [im.size], as PIL gives it: (width, height). *)
Definition size (im : PILImage) : nat * nat :=
  (ncols (hd [] (bands im)), nrows (hd [] (bands im))).

Definition uint16b (v : Z) : bool := (0 <=? v) && (v <=? 65535).

(** A raster a decoder can produce: as many bands as the mode has, at
    least one row and one column, every band of the same rectangular
    shape, every sample in 0..255, and the samples of a transparent
    colour in the 16 bits a file has for them. *)
Definition valid (im : PILImage) : bool :=
  let '(w, h) := size im in
  Nat.eqb (length (bands im)) (nbands (mode im))
  && Nat.ltb 0 w && Nat.ltb 0 h
  && forallb (rectangularb h w) (bands im)
  && forallb (forallb (forallb uint8b)) (bands im)
  && match transparency im with
     | None => true
     | Some (TransparentGray v) => uint16b v
     | Some (TransparentColour r g b) => uint16b r && uint16b g && uint16b b
     end.

(** A plane of the image's shape filled with [v]. *)
Definition full (im : PILImage) (v : Z) : ndarray :=
  let '(w, h) := size im in tabulate h w (fun _ _ => v).

Definition band (im : PILImage) (i : nat) : ndarray := nth i (bands im) [].

(** The pixel at row [y], column [x] of an image without alpha band,
    after its conversion to colour: gray is replicated. *)
Definition pixel_rgb (im : PILImage) (y x : Z) : Z * Z * Z :=
  match mode im with
  | RGB => (item (band im 0) y x, item (band im 1) y x, item (band im 2) y x)
  | _ => (item (band im 0) y x, item (band im 0) y x, item (band im 0) y x)
  end%nat.

(** The colour that [convert_transparent] compares the converted pixels
    with: each sample of the declared colour reduced to its low 8 bits;
    a gray image takes the first sample for all three, and a single
    value on a colour image stands for (value, 0, 0). *)
Definition key_colour (m : Mode) (t : Transparency) : Z * Z * Z :=
  match m, t with
  | RGB, TransparentColour r g b => (Z.land r 255, Z.land g 255, Z.land b 255)
  | RGB, TransparentGray v => (Z.land v 255, 0, 0)
  | _, TransparentColour r _ _ => (Z.land r 255, Z.land r 255, Z.land r 255)
  | _, TransparentGray v => (Z.land v 255, Z.land v 255, Z.land v 255)
  end.

Definition same_colour (p q : Z * Z * Z) : bool :=
  let '(r1, g1, b1) := p in
  let '(r2, g2, b2) := q in
  (r1 =? r2) && (g1 =? g2) && (b1 =? b2).

(** The pixel at row [y], column [x] has the transparent colour [t]. *)
Definition has_key_colour (im : PILImage) (t : Transparency) (y x : Z) : bool :=
  same_colour (pixel_rgb im y x) (key_colour (mode im) t).

(** The alpha band that the conversion gives an image with the
    transparent colour [t]: 0 at the pixels of that colour, 255 at the
    others. *)
Definition transparent_alpha (im : PILImage) (t : Transparency) : ndarray :=
  let '(w, h) := size im in
  tabulate h w (fun y x =>
    if has_key_colour im t (Z.of_nat y) (Z.of_nat x) then 0 else 255).

(** The alpha band that the conversion adds to an image without one: the
    transparent colour, when the image carries one, becomes alpha 0, all
    else is opaque. *)
Definition added_alpha (im : PILImage) : ndarray :=
  match transparency im with
  | Some t => transparent_alpha im t
  | None => full im 255
  end.

(** [im.convert('RGBA')]: gray is replicated over the colour bands; an
    alpha band is kept, and a missing one is added, which uses up the
    transparent colour.  An image that is RGBA already is copied. *)
Definition convert_RGBA (im : PILImage) : PILImage :=
  match mode im with
  | L => mkImage RGBA [band im 0; band im 0; band im 0; added_alpha im]
  | LA => mkImageInfo RGBA [band im 0; band im 0; band im 0; band im 1]
            (transparency im)
  | RGB => mkImage RGBA [band im 0; band im 1; band im 2; added_alpha im]
  | RGBA => mkImageInfo RGBA [band im 0; band im 1; band im 2; band im 3]
              (transparency im)
  end%nat.

(** [im.split()]: one single-band image per band, each with the [info]
    of the image. *)
Definition split (im : PILImage) : list PILImage :=
  map (fun b => mkImageInfo L [b] (transparency im)) (bands im).

(** [Image.fromarray(a)] of a two-dimensional 8-bit array. *)
Definition fromarray (a : ndarray) : PILImage := mkImage L [a].

(** [Image.open(path)]: identifies the file; pixel data is read later. *)
Definition open (path : string) : M File :=
  _ <- tell (EvOpen path) ;;
  w <- get_world ;;
  match files w path with
  | None => raise FileNotFoundError
  | Some NotAnImage => raise UnidentifiedImageError
  | Some f => ret f
  end.

(** [.convert('RGBA')] on a freshly opened file: loads the pixel data,
    which fails on a file that does not hold a valid raster. *)
Definition load_convert_RGBA (f : File) : Exception + PILImage :=
  match f with
  | Encoded im => if valid im then inr (convert_RGBA im) else inl OSError
  | _ => inl OSError
  end.

End Image.

(** Python's [xs[i]]. *)
Definition getitem {A} (xs : list A) (i : nat) : Exception + A :=
  match nth_error xs i with
  | Some x => inr x
  | None => inl IndexError
  end.

(** [datetime.now().strftime(fmt)]: reads the clock. *)
Definition datetime_now_strftime (fmt : string) : M string :=
  _ <- tell EvNow ;;
  w <- get_world ;;
  ret (wall_clock w).

(* ================================================================== *)
(** ** OpenCV: bilinear resize and dilation of 8-bit planes            *)
(* ================================================================== *)

(** [cv2.resize] with [INTER_LINEAR] on one 8-bit plane, as OpenCV
    computes it: destination sample centres are mapped to source
    coordinates, the two neighbours along each axis are weighted with
    11-bit fixed-point coefficients, first along rows, then along
    columns, with the shifts and the rounding of the 8-bit code path.
    Source coordinates are kept here as exact fractions; OpenCV forms
    them in floating point, which is exact for the scale factors 1/4 and
    4 that [create_mask] uses. *)

Module cv2.

Definition INTER_RESIZE_COEF_BITS : Z := 11.
Definition INTER_RESIZE_COEF_SCALE : Z := 2 ^ INTER_RESIZE_COEF_BITS.

(** [cvRound(n / d)] for [d > 0]: nearest integer, ties to even. *)
Definition cvRound_frac (n d : Z) : Z :=
  let q := n / d in
  let r := n mod d in
  if 2 * r <? d then q
  else if d <? 2 * r then q + 1
  else if Z.even q then q else q + 1.

(** [clip(x, a, b)]: [x] brought into [a .. b-1]. *)
Definition clip (x a b : Z) : Z :=
  if a <=? x then (if x <? b then x else b - 1) else a.

(** Source coordinate of destination index [d] on an axis resized from
    [ssize] to [dsize] samples: [(d + 0.5) * ssize / dsize - 0.5], as
    its floor and the numerator of its fractional part over
    [2 * dsize]. *)
Definition src_coord (ssize dsize d : Z) : Z * Z :=
  let num := (2 * d + 1) * ssize - dsize in
  (num / (2 * dsize), num mod (2 * dsize)).

(** Horizontal tap of destination column [dx]: left source column and
    the fixed-point weights of it and of its right neighbour.  A
    coordinate left of the first or at the last column is pinned to
    that column with fraction 0. *)
Definition x_tap (swidth dwidth dx : Z) : Z * Z * Z :=
  let '(sx, r) := src_coord swidth dwidth dx in
  let '(sx, r) := if sx <? 0 then (0, 0) else (sx, r) in
  let '(sx, r) := if sx >=? swidth - 1 then (swidth - 1, 0) else (sx, r) in
  let den := 2 * dwidth in
  (sx,
   cvRound_frac ((den - r) * INTER_RESIZE_COEF_SCALE) den,
   cvRound_frac (r * INTER_RESIZE_COEF_SCALE) den).

(** Vertical tap of destination row [dy]: upper source row (not yet
    clipped) and the two weights. *)
Definition y_tap (sheight dheight dy : Z) : Z * Z * Z :=
  let '(sy, r) := src_coord sheight dheight dy in
  let den := 2 * dheight in
  (sy,
   cvRound_frac ((den - r) * INTER_RESIZE_COEF_SCALE) den,
   cvRound_frac (r * INTER_RESIZE_COEF_SCALE) den).

(** Horizontal pass at source row [sy], destination column [dx]: the
    weighted sum of two neighbouring samples, scaled by 2048; past the
    last column pair the single sample times 2048. *)
Definition hresize (src : ndarray) (swidth dwidth : Z) (sy dx : Z) : Z :=
  let '(sx, a0, a1) := x_tap swidth dwidth dx in
  if sx + 1 >=? swidth
  then item src sy sx * INTER_RESIZE_COEF_SCALE
  else item src sy sx * a0 + item src sy (sx + 1) * a1.

(** Vertical pass and cast back to 8 bits. *)
Definition vresize (b0 b1 S0 S1 : Z) : Z :=
  Z.shiftr (Z.shiftr (b0 * Z.shiftr S0 4) 16
            + Z.shiftr (b1 * Z.shiftr S1 4) 16 + 2) 2 mod 256.

Definition resize_linear_at (src : ndarray) (sw sh dw dh : Z) (dy dx : Z) : Z :=
  let '(sy, b0, b1) := y_tap sh dh dy in
  vresize b0 b1
    (hresize src sw dw (clip sy 0 sh) dx)
    (hresize src sw dw (clip (sy + 1) 0 sh) dx).

(** Exact halving is done by averaging each 2x2 block. *)
Definition resize_area2_at (src : ndarray) (dy dx : Z) : Z :=
  Z.shiftr (item src (2 * dy) (2 * dx) + item src (2 * dy) (2 * dx + 1)
            + item src (2 * dy + 1) (2 * dx)
            + item src (2 * dy + 1) (2 * dx + 1) + 2) 2.

(** The resized plane, sizes already checked. *)
Definition resize_plane (src : ndarray) (dwidth dheight : nat) : ndarray :=
  let sw := Z.of_nat (ncols src) in
  let sh := Z.of_nat (nrows src) in
  let dw := Z.of_nat dwidth in
  let dh := Z.of_nat dheight in
  if (sw =? 2 * dw) && (sh =? 2 * dh)
  then tabulate dheight dwidth
         (fun y x => resize_area2_at src (Z.of_nat y) (Z.of_nat x))
  else tabulate dheight dwidth
         (fun y x => resize_linear_at src sw sh dw dh (Z.of_nat y) (Z.of_nat x)).

(** [cv2.resize(src, (dwidth, dheight), interpolation=cv2.INTER_LINEAR)]
    on a single 8-bit plane.  An empty source or target is an error. *)
Definition resize (src : ndarray) (dsize : nat * nat) : Exception + ndarray :=
  let '(dwidth, dheight) := dsize in
  if Nat.eqb (nrows src) 0 || Nat.eqb (ncols src) 0
     || Nat.eqb dwidth 0 || Nat.eqb dheight 0
  then inl cv2_error
  else inr (resize_plane src dwidth dheight).

(** Offsets, relative to the anchor at the kernel's centre, of the
    non-zero kernel entries. *)
Definition kernel_offsets (kernel : ndarray) : list (Z * Z) :=
  let kh := nrows kernel in
  let kw := ncols kernel in
  flat_map
    (fun ky =>
       flat_map
         (fun kx =>
            if item kernel (Z.of_nat ky) (Z.of_nat kx) =? 0 then []
            else [(Z.of_nat ky - Z.of_nat (kh / 2),
                   Z.of_nat kx - Z.of_nat (kw / 2))])
         (seq 0 kw))
    (seq 0 kh).

(** One dilation pass: the maximum over the kernel's footprint; samples
    outside the plane do not take part. *)
Definition dilate_once (kernel src : ndarray) : ndarray :=
  let h := nrows src in
  let w := ncols src in
  tabulate h w
    (fun y x =>
       fold_left Z.max
         (map (fun o : Z * Z =>
                 let sy := Z.of_nat y + fst o in
                 let sx := Z.of_nat x + snd o in
                 if (0 <=? sy) && (sy <? Z.of_nat h)
                    && (0 <=? sx) && (sx <? Z.of_nat w)
                 then item src sy sx else 0)
              (kernel_offsets kernel))
         0).

(** [cv2.dilate(src, kernel, iterations=n)]. *)
Definition dilate (src kernel : ndarray) (iterations : nat)
  : Exception + ndarray :=
  if Nat.eqb (nrows src) 0 || Nat.eqb (ncols src) 0
  then inl cv2_error
  else inr (Nat.iter iterations (dilate_once kernel) src).

(** The type of [cv2.Canny(image, threshold1, threshold2)].  The edge
    detector itself is a parameter of the pipeline. *)
Definition CannyT : Type := ndarray -> Z -> Z -> Exception + ndarray.

(** What the pipeline relies on: on a non-empty rectangular 8-bit plane
    the detector returns an edge map of the same shape. *)
Definition Canny_contract (Canny : CannyT) : Prop :=
  forall (h w : nat) (image : ndarray) (lo hi : Z),
    (0 < h)%nat -> (0 < w)%nat -> rectangular h w image ->
    exists edges, Canny image lo hi = inr edges /\ rectangular h w edges.

(** A small gradient detector of that type: a sample is an edge when
    the sum of the absolute central differences along both axes
    (borders replicated) exceeds the upper threshold. *)
Definition gradient_edges : CannyT :=
  fun image lo hi =>
    let h := nrows image in
    let w := ncols image in
    if Nat.eqb h 0 || Nat.eqb w 0 then inl cv2_error
    else
      inr (tabulate h w
             (fun y x =>
                let zy := Z.of_nat y in
                let zx := Z.of_nat x in
                let gx := item image zy (clip (zx + 1) 0 (Z.of_nat w))
                          - item image zy (clip (zx - 1) 0 (Z.of_nat w)) in
                let gy := item image (clip (zy + 1) 0 (Z.of_nat h)) zx
                          - item image (clip (zy - 1) 0 (Z.of_nat h)) zx in
                if Z.abs gx + Z.abs gy >? hi then 255 else 0)).

End cv2.

(* ================================================================== *)
(** ** utils.py                                                        *)
(* ================================================================== *)

(** A [PurePosixPath]: its root ("", "/" or "//") and its parts. *)
Record Path : Type := mkPath { anchor : string; parts : list string }.

(** [s.split(sep)]. *)
Fixpoint split_on (sep : ascii) (s : string) : list string :=
  match s with
  | EmptyString => [EmptyString]
  | String c s' =>
      if Ascii.eqb c sep then EmptyString :: split_on sep s'
      else match split_on sep s' with
           | piece :: pieces => String c piece :: pieces
           | [] => [String c EmptyString]
           end
  end.

Fixpoint leading_slashes (s : string) : nat :=
  match s with
  | String c s' => if Ascii.eqb c "/" then S (leading_slashes s') else 0%nat
  | EmptyString => 0%nat
  end.

(** [PurePosixPath(s)]: exactly two leading slashes are kept as the root
    "//", any other number is the root "/"; empty components and "."
    are dropped, ".." is kept. *)
Definition PurePath (s : string) : Path :=
  mkPath
    match leading_slashes s with
    | 0%nat => "" | 2%nat => "//" | _ => "/"
    end
    (filter (fun c => negb (String.eqb c "") && negb (String.eqb c "."))
       (split_on "/" s)).

(** [p / s]: a rooted [s] replaces [p]. *)
Definition joinpath (p : Path) (s : string) : Path :=
  let q := PurePath s in
  if String.eqb (anchor q) "" then mkPath (anchor p) (parts p ++ parts q)
  else q.

(** [p.parent]. *)
Definition Path_parent (p : Path) : Path :=
  mkPath (anchor p) (removelast (parts p)).

(** [str(p)]. *)
Definition Path_str (p : Path) : string :=
  match parts p with
  | [] => if String.eqb (anchor p) "" then "." else anchor p
  | _ => (anchor p ++ String.concat "/" (parts p))%string
  end.

(** What a name of the file system stands for. *)
Inductive Kind : Type := IsDir | IsFile | Missing.

Definition entry_kind (w : World) (name : string) : Kind :=
  if existsb (String.eqb name) (directories w) then IsDir
  else match files w name with Some _ => IsFile | None => Missing end.

(** The name under which the world knows the place reached from the root
    [anchor] (the working directory when that is empty) by the
    components [rcur], last first; the file system takes "//" for "/". *)
Definition entry_name (anchor : string) (rcur : list string) : string :=
  Path_str (mkPath (if String.eqb anchor "" then "" else "/") (rev rcur)).

(** The root, the working directory and the directories above it are
    directories; any other place is what the world says. *)
Definition kind_at (w : World) (anchor : string) (rcur : list string) : Kind :=
  if forallb (String.eqb "..") rcur then IsDir
  else entry_kind w (entry_name anchor rcur).

(** The place reached from the directory [rcur] by the component [c]:
    ".." leads to the directory above, and stays at the root. *)
Definition enter (anchor : string) (rcur : list string) (c : string)
  : list string :=
  if String.eqb c ".." then
    match rcur with
    | [] => if String.eqb anchor "" then [".."%string] else []
    | d :: above => if String.eqb d ".." then ".."%string :: rcur else above
    end
  else c :: rcur.

(** Path resolution without symbolic links: every place a component is
    looked up in must be a directory. *)
Fixpoint walk (w : World) (anchor : string) (rcur : list string)
    (components : list string) : Exception + list string :=
  match components with
  | [] => inr rcur
  | c :: rest =>
      match kind_at w anchor rcur with
      | IsDir => walk w anchor (enter anchor rcur c) rest
      | IsFile => inl NotADirectoryError
      | Missing => inl FileNotFoundError
      end
  end.

Definition has_null_byte (components : list string) : bool :=
  existsb (fun c => existsb (Ascii.eqb Ascii.zero) (list_ascii_of_string c))
    components.

Definition add_directory (w : World) (name : string) : World :=
  mkWorld (wall_clock w) (files w) (name :: directories w).

(** [os.mkdir(p)] for the path with root [anchor] and the parts
    [rparts], last first.  The model has no permissions, no symbolic
    links and no limits on the length of names. *)
Definition os_mkdir (w : World) (anchor : string) (rparts : list string)
  : Exception + World :=
  if has_null_byte rparts then inl ValueError_null_byte
  else
    match rparts with
    | [] => inl FileExistsError
    | last :: rinit =>
        match walk w anchor [] (rev rinit) with
        | inl e => inl e
        | inr rcur =>
            match kind_at w anchor rcur with
            | IsFile => inl NotADirectoryError
            | Missing => inl FileNotFoundError
            | IsDir =>
                if String.eqb last ".." then inl FileExistsError
                else
                  match kind_at w anchor (last :: rcur) with
                  | Missing =>
                      inr (add_directory w (entry_name anchor (last :: rcur)))
                  | _ => inl FileExistsError
                  end
            end
        end
    end.

(** [p.is_dir()], which answers [False] where [stat] fails. *)
Definition is_dir (w : World) (anchor : string) (rparts : list string)
  : bool :=
  if has_null_byte rparts then false
  else
    match walk w anchor [] (rev rparts) with
    | inr rcur =>
        match kind_at w anchor rcur with IsDir => true | _ => false end
    | inl _ => false
    end.

(** The handler [except OSError: if not exist_ok or not self.is_dir():
    raise] of [Path.mkdir], with [exist_ok=True]; a [ValueError] is no
    [OSError]. *)
Definition exist_ok (w : World) (anchor : string) (rparts : list string)
    (e : Exception) : World * option Exception :=
  match e with
  | ValueError_null_byte => (w, Some e)
  | _ => if is_dir w anchor rparts then (w, None) else (w, Some e)
  end.

(** [Path.mkdir(parents=True, exist_ok=True)] as pathlib writes it: try
    [os.mkdir]; on [FileNotFoundError] make the parent in the same way
    and try once more; on any other [OSError] be content when the path
    is a directory.  The result is the world as the call leaves it and
    the exception it raises, if any. *)
Fixpoint mkdir_parents (w : World) (anchor : string) (rparts : list string)
  : World * option Exception :=
  match os_mkdir w anchor rparts with
  | inr w1 => (w1, None)
  | inl FileNotFoundError =>
      match rparts with
      | [] => (w, Some FileNotFoundError)          (* p.parent == p *)
      | _ :: rparent =>
          match mkdir_parents w anchor rparent with
          | (w1, Some e) => (w1, Some e)
          | (w1, None) =>
              match os_mkdir w1 anchor rparts with
              | inr w2 => (w2, None)
              | inl FileNotFoundError => (w1, Some FileNotFoundError)
              | inl e => exist_ok w1 anchor rparts e
              end
          end
      end
  | inl e => exist_ok w anchor rparts e
  end.


Definition Path_mkdir (p : Path) : M unit :=
  fun w =>
    match mkdir_parents w (anchor p) (rev (parts p)) with
    | (w1, Some e) => (w1, [EvMkdir (Path_str p)], inl e)
    | (w1, None) => (w1, [EvMkdir (Path_str p)], inr tt)
    end.

(** [Path(__file__).parent.parent], for the [__file__] of [utils.py]. *)
Definition get_project_root (file : string) : Path :=
  Path_parent (Path_parent (PurePath file)).

(** The path [get_project_root() / 'data' / subdir]. *)
Definition data_path (file subdir : string) : Path :=
  joinpath (joinpath (get_project_root file) "data") subdir.

(** [get_data_path(subdir)]: the data sub-directory, created if absent;
    the path is returned as the string it prints as. *)
Definition get_data_path (file : string) (subdir : string) : M string :=
  let data_path := joinpath (joinpath (get_project_root file) "data") subdir in
  _ <- Path_mkdir data_path ;;
  ret (Path_str data_path).

(** A world in which the project lives at /r and a plain file has the
    name of the data directory for Reddit posts. *)
Definition clash_world : World :=
  mkWorld "20240101_1200"
    (fun p => if String.eqb p "/r/data/reddit" then Some NotAnImage else None)
    [ "/r/data"; "/r" ]%string.

(** The second world is the first with more directories, and nothing
    else changed. *)
Definition grows (w w1 : World) : Prop :=
  wall_clock w1 = wall_clock w /\ files w1 = files w
  /\ incl (directories w) (directories w1).

(* ================================================================== *)
(** ** mask_generator.py                                               *)
(* ================================================================== *)

Record MaskGenerator : Type := mkMaskGenerator {
  debug : bool;
  debug_dir : option string
}.

Definition ALPHA_THRESHOLD : Z := 127.
Definition EDGE_LOW : Z := 100.
Definition EDGE_HIGH : Z := 200.
Definition SUPERSAMPLE_FACTOR : nat := 4.

(** [MaskGenerator.__init__]. *)
Definition MaskGenerator_init (file : string) (debug : bool)
  : M MaskGenerator :=
  if debug
  then d <- get_data_path file "output/debug/mask_analysis" ;;
       ret (mkMaskGenerator true (Some d))
  else ret (mkMaskGenerator false None).

(** The body of [MaskGenerator.create_mask].  The source reads the
    supersample factor as the attribute [self.SUPERSAMPLE_FACTOR]; here it
    is the argument [SUPERSAMPLE_FACTOR'], which [create_mask] below sets
    to the class constant. *)
Definition create_mask_at (SUPERSAMPLE_FACTOR' : nat) (Canny : cv2.CannyT)
    (self : MaskGenerator) (image_path : string) : M PILImage :=
  timestamp <- datetime_now_strftime "%Y%m%d_%H%M" ;;
  (* 1. Extract alpha channel *)
  opened <- Image.open image_path ;;
  original <- lift (Image.load_convert_RGBA opened) ;;
  let '(width, height) := Image.size original in
  alpha <- lift (getitem (Image.split original) 3) ;;
  let alpha_array := np.array alpha in
  (* 2. Create initial binary mask *)
  let initial_mask :=
    np.astype_uint8
      (np.where_ (np.greater alpha_array ALPHA_THRESHOLD) 0 255) in
  (* 3. Supersample for better edge quality *)
  let super_size :=
    ((width * SUPERSAMPLE_FACTOR')%nat, (height * SUPERSAMPLE_FACTOR')%nat) in
  mask_large <- lift (cv2.resize initial_mask super_size) ;;
  let mask_large :=
    np.astype_uint8
      (np.where_ (np.greater mask_large ALPHA_THRESHOLD) 0 255) in
  (* 4. Edge detection and refinement *)
  edges <- lift (Canny mask_large EDGE_LOW EDGE_HIGH) ;;
  let kernel := np.ones 3 3 in
  edge_zone <- lift (cv2.dilate edges kernel 1) ;;
  (* 5. Create final mask *)
  let final_high_res := mask_large in
  (* 6. Downsample to original size *)
  final_mask_array <- lift (cv2.resize final_high_res (width, height)) ;;
  let final_mask_array :=
    np.astype_uint8
      (np.where_ (np.greater final_mask_array ALPHA_THRESHOLD) 0 255) in
  let final_mask := Image.fromarray final_mask_array in
  ret final_mask.

(** [MaskGenerator.create_mask]. *)
Definition create_mask (Canny : cv2.CannyT)
    (self : MaskGenerator) (image_path : string) : M PILImage :=
  create_mask_at SUPERSAMPLE_FACTOR Canny self image_path.

(** The pipeline as the specification's design note proposes to simplify
    it: steps 4 (edge detection and dilation) left out, all else as in
    [create_mask]. *)
Definition create_mask_without_edges
    (self : MaskGenerator) (image_path : string) : M PILImage :=
  timestamp <- datetime_now_strftime "%Y%m%d_%H%M" ;;
  opened <- Image.open image_path ;;
  original <- lift (Image.load_convert_RGBA opened) ;;
  let '(width, height) := Image.size original in
  alpha <- lift (getitem (Image.split original) 3) ;;
  let alpha_array := np.array alpha in
  let initial_mask :=
    np.astype_uint8
      (np.where_ (np.greater alpha_array ALPHA_THRESHOLD) 0 255) in
  let super_size :=
    ((width * SUPERSAMPLE_FACTOR)%nat, (height * SUPERSAMPLE_FACTOR)%nat) in
  mask_large <- lift (cv2.resize initial_mask super_size) ;;
  let mask_large :=
    np.astype_uint8
      (np.where_ (np.greater mask_large ALPHA_THRESHOLD) 0 255) in
  let final_high_res := mask_large in
  final_mask_array <- lift (cv2.resize final_high_res (width, height)) ;;
  let final_mask_array :=
    np.astype_uint8
      (np.where_ (np.greater final_mask_array ALPHA_THRESHOLD) 0 255) in
  let final_mask := Image.fromarray final_mask_array in
  ret final_mask.

(** The binarization rule that [create_mask] applies at each of its three
    stages: a sample above the threshold becomes 0, any other 255. *)
Definition binarize (a : ndarray) : ndarray :=
  np.astype_uint8 (np.where_ (np.greater a ALPHA_THRESHOLD) 0 255).

(** The alpha plane [create_mask] works on: band 3 after conversion. *)
Definition alpha_plane (im : PILImage) : ndarray :=
  Image.band (Image.convert_RGBA im) 3.

(** The intermediate supersampled mask of step 3 and the returned array
    of step 6, as functions of the decoded image and of the supersample
    factor. *)
Definition supersampled_mask_at (factor : nat) (im : PILImage) : ndarray :=
  let '(width, height) := Image.size im in
  binarize (cv2.resize_plane (binarize (alpha_plane im))
              (width * factor) (height * factor)).

Definition final_mask_at (factor : nat) (im : PILImage) : ndarray :=
  let '(width, height) := Image.size im in
  binarize (cv2.resize_plane (supersampled_mask_at factor im) width height).

Definition supersampled_mask : PILImage -> ndarray :=
  supersampled_mask_at SUPERSAMPLE_FACTOR.

Definition final_mask_of : PILImage -> ndarray :=
  final_mask_at SUPERSAMPLE_FACTOR.

(** Upsampling by 4 turns every source sample into a 4x4 block of
    destination samples.  [own_weight b] is the weight, out of 2048, that
    the destination sample at offset [b] (0..3) along one axis gives to
    the source sample of its own block; [block_corner a b] tells the four
    corner offsets of a block, where the neighbours together outweigh
    it. *)
Definition own_weight (b : Z) : Z :=
  if (b =? 0) || (b =? 3) then 1280 else 1792.

Definition block_corner (a b : Z) : bool :=
  ((a =? 0) || (a =? 3)) && ((b =? 0) || (b =? 3)).

(** Every sample of the plane satisfies [P]. *)
Definition all_samples (P : Z -> Prop) (a : ndarray) : Prop :=
  Forall (Forall P) a.

Definition is_binary (v : Z) : Prop := v = 0 \/ v = 255.

(** The file at [path] decodes to the raster [im]. *)
Definition decodes_to (w : World) (path : string) (im : PILImage) : Prop :=
  files w path = Some (Encoded im) /\ Image.valid im = true.

Definition decodable (w : World) (path : string) : Prop :=
  exists im, decodes_to w path im.

(** No pixel of the image has the transparent colour the image carries;
    an image that carries none has no such pixel. *)
Definition no_transparent_pixel (im : PILImage) : Prop :=
  match transparency im with
  | None => True
  | Some t =>
      forall y x : nat,
        (y < snd (Image.size im))%nat -> (x < fst (Image.size im))%nat ->
        Image.has_key_colour im t (Z.of_nat y) (Z.of_nat x) = false
  end.

(** The exceptions with which opening or loading a file fails. *)
Definition decode_error (e : Exception) : Prop :=
  e = FileNotFoundError \/ e = UnidentifiedImageError \/ e = OSError.

(** A world for examples: a 3x2 RGBA picture and a recoloured copy of it,
    an RGB picture, four pictures of uniform alpha, a text file and a
    truncated picture. *)
Definition sample_rgba : PILImage :=
  mkImage RGBA
    [ [[10; 20; 30]; [40; 50; 60]];
      [[11; 21; 31]; [41; 51; 61]];
      [[12; 22; 32]; [42; 52; 62]];
      [[255; 127; 128]; [0; 200; 3]] ].

Definition sample_recoloured : PILImage :=
  mkImage RGBA
    [ [[200; 0; 90]; [7; 7; 7]];
      [[0; 0; 0]; [255; 255; 255]];
      [[99; 98; 97]; [1; 2; 3]];
      [[255; 127; 128]; [0; 200; 3]] ].

Definition sample_rgb : PILImage :=
  mkImage RGB
    [ [[10; 20]; [40; 50]];
      [[11; 21]; [41; 51]];
      [[12; 22]; [42; 52]] ].

Definition uniform_rgba (a : Z) : PILImage :=
  mkImage RGBA
    [ [[1; 2; 3]; [4; 5; 6]];
      [[7; 8; 9]; [1; 2; 3]];
      [[4; 5; 6]; [7; 8; 9]];
      [[a; a; a]; [a; a; a]] ].

Definition sample_world : World :=
  mkWorld "20240101_1200"
    (fun p =>
       if String.eqb p "product.png" then Some (Encoded sample_rgba)
       else if String.eqb p "recoloured.png" then Some (Encoded sample_recoloured)
       else if String.eqb p "photo.jpg" then Some (Encoded sample_rgb)
       else if String.eqb p "opaque.png" then Some (Encoded (uniform_rgba 255))
       else if String.eqb p "clear.png" then Some (Encoded (uniform_rgba 0))
       else if String.eqb p "a127.png" then Some (Encoded (uniform_rgba 127))
       else if String.eqb p "a128.png" then Some (Encoded (uniform_rgba 128))
       else if String.eqb p "notes.txt" then Some NotAnImage
       else if String.eqb p "cut.png" then Some Truncated
       else None)
    [].

(** An RGB picture whose file declares the colour (10, 11, 12)
    transparent; the pixel in its top left corner has that colour. *)
Definition sample_keyed : PILImage :=
  mkImageInfo RGB
    [ [[10; 20]; [40; 50]];
      [[11; 21]; [41; 51]];
      [[12; 22]; [42; 52]] ]
    (Some (TransparentColour 10 11 12)).

Definition keyed_world : World :=
  mkWorld "20240101_1200"
    (fun p =>
       if String.eqb p "keyed.png" then Some (Encoded sample_keyed) else None)
    [].

(** A picture with a single opaque pixel in its middle. *)
Definition sample_lone : PILImage :=
  mkImage RGBA
    [ [[1; 2; 3]; [4; 5; 6]; [7; 8; 9]];
      [[1; 2; 3]; [4; 5; 6]; [7; 8; 9]];
      [[1; 2; 3]; [4; 5; 6]; [7; 8; 9]];
      [[0; 0; 0]; [0; 255; 0]; [0; 0; 0]] ].

Definition sample_generator : MaskGenerator := mkMaskGenerator false None.

(** The same files at another time, after a debugging generator has been
    set up and has created its directory. *)
Definition later_world : World :=
  mkWorld "20250202_0830" (files sample_world)
    ["pkg/data/output/debug/mask_analysis"%string].

Definition debug_generator : MaskGenerator :=
  mkMaskGenerator true (Some "pkg/data/output/debug/mask_analysis"%string).

(* ================================================================== *)
(** ** Python text                                                     *)
(* ================================================================== *)

(** A Python [str] whose characters have code points below 256, as the
    list of its characters. *)
Definition pystr : Type := list ascii.

Definition lit (s : string) : pystr := list_ascii_of_string s.

Definition code (c : ascii) : N := N_of_ascii c.

(** [c.lower()] on code points below 256: the ASCII capitals and the
    Latin-1 capitals U+00C0..U+00DE (but the multiplication sign). *)
Definition char_lower (c : ascii) : ascii :=
  let n := code c in
  if ((65 <=? n) && (n <=? 90)
      || (192 <=? n) && (n <=? 222) && negb (n =? 215))%N
  then ascii_of_N (n + 32) else c.

Definition str_lower (s : pystr) : pystr := map char_lower s.

(** [c.isspace()], also what [\s] matches, on code points below 256. *)
Definition isspace (c : ascii) : bool :=
  let n := code c in
  ((9 <=? n) && (n <=? 13) || (28 <=? n) && (n <=? 32)
   || (n =? 133) || (n =? 160))%N.

Fixpoint startswith (prefix s : pystr) : bool :=
  match prefix, s with
  | [], _ => true
  | _ :: _, [] => false
  | a :: prefix', b :: s' => Ascii.eqb a b && startswith prefix' s'
  end.

(** [needle in s]. *)
Fixpoint str_in (needle s : pystr) : bool :=
  startswith needle s
  || match s with
     | [] => false
     | _ :: s' => str_in needle s'
     end.

Fixpoint lstrip (s : pystr) : pystr :=
  match s with
  | c :: s' => if isspace c then lstrip s' else s
  | [] => []
  end.

(** [s.strip()]. *)
Definition str_strip (s : pystr) : pystr := rev (lstrip (rev (lstrip s))).

(* ================================================================== *)
(** ** fashion_trend_analyzer.py: [_retry_with_backoff]                *)
(* ================================================================== *)

(** How [time.sleep] refuses a length. *)
Inductive SleepError : Type :=
| sleep_OverflowError    (* the length does not fit the clock's integer *)
| sleep_ValueError       (* the length is negative *)
| sleep_OSError.         (* the operating system refuses the length *)

(** The range of [_PyTime_t], a signed 64-bit count of nanoseconds. *)
Definition PyTime_MIN : Z := - 2 ^ 63.
Definition PyTime_MAX : Z := 2 ^ 63 - 1.
Definition SEC_TO_NS : Z := 10 ^ 9.

(** [time.sleep(secs)] for an integer [secs], but for the waiting
    itself.  The length is first turned into nanoseconds, which raises
    [OverflowError] outside of [PyTime_MIN / SEC_TO_NS ..
    PyTime_MAX / SEC_TO_NS] (C division, that is -9223372036 ..
    9223372036); a negative length then raises [ValueError]; the
    operating system may still refuse a length, which raises [OSError];
    [os_refuses] tells whether it does. *)
Definition time_sleep (os_refuses : Z -> bool) (secs : Z)
  : option SleepError :=
  if (secs <? Z.quot PyTime_MIN SEC_TO_NS)
     || (Z.quot PyTime_MAX SEC_TO_NS <? secs)
  then Some sleep_OverflowError
  else if secs <? 0 then Some sleep_ValueError
  else if os_refuses secs then Some sleep_OSError
  else None.

(** How a call of [_retry_with_backoff] ends: with the value of [func],
    with [None] when the loop body never ran, with the exception of
    [func] (kept as its message), or with the exception of
    [time.sleep]. *)
Inductive RetryOutcome (A : Type) : Type :=
| Returned (v : A)
| ReturnedNone
| Reraised (message : pystr)
| SleepRaised (e : SleepError).
Arguments Returned {A} v.
Arguments ReturnedNone {A}.
Arguments Reraised {A} message.
Arguments SleepRaised {A} e.

Record RetryRun (A : Type) : Type := mkRetryRun {
  retry_outcome : RetryOutcome A;
  retry_calls : nat;            (* how often [func] was called *)
  retry_sleeps : list Z         (* the delays slept, in order *)
}.
Arguments mkRetryRun {A}.
Arguments retry_outcome {A}.
Arguments retry_calls {A}.
Arguments retry_sleeps {A}.

(** The loop over [range(max_retries)].  [func k] is what the call of
    [func] in attempt [k] does: raise (left, the message of the
    exception) or return (right); [os_refuses k] is what the operating
    system refuses to sleep after attempt [k]. *)
Fixpoint retry_loop {A} (os_refuses : nat -> Z -> bool)
    (func : nat -> pystr + A)
    (max_retries initial_delay : Z) (attempts : list nat)
    (sleeps : list Z) (calls : nat) : RetryRun A :=
  match attempts with
  | [] => mkRetryRun ReturnedNone calls sleeps
  | attempt :: rest =>
      match func attempt with
      | inr v => mkRetryRun (Returned v) (S calls) sleeps
      | inl e =>
          if str_in (lit "rate_limit") (str_lower e)
             && (Z.of_nat attempt <? max_retries - 1)
          then
            let delay := initial_delay * 2 ^ Z.of_nat attempt in
            match time_sleep (os_refuses attempt) delay with
            | Some err => mkRetryRun (SleepRaised err) (S calls) sleeps
            | None =>
                retry_loop os_refuses func max_retries initial_delay rest
                  (sleeps ++ [delay]) (S calls)
            end
          else mkRetryRun (Reraised e) (S calls) sleeps
      end
  end.

(** [TrendAnalyzer._retry_with_backoff(func, max_retries, initial_delay)]. *)
Definition _retry_with_backoff {A} (os_refuses : nat -> Z -> bool)
    (func : nat -> pystr + A)
    (max_retries initial_delay : Z) : RetryRun A :=
  retry_loop os_refuses func max_retries initial_delay
    (seq 0 (Z.to_nat max_retries)) [] 0.

Definition rate_limited (e : pystr) : bool :=
  str_in (lit "rate_limit") (str_lower e).

(** The delay slept after the failed attempt [k]. *)
Definition backoff_delay (initial_delay : Z) (k : nat) : Z :=
  initial_delay * 2 ^ Z.of_nat k.

(** An operating system that refuses no length. *)
Definition never_refuses : nat -> Z -> bool := fun _ _ => false.

(** A call that fails twice with a rate-limit message and then returns. *)
Definition sample_calls (k : nat) : pystr + nat :=
  if Nat.ltb k 2 then inl (lit "Error 429: Rate_Limit reached") else inr 7%nat.

(* ================================================================== *)
(** ** background_generator.py: [FluxGenerator._wait_for_result]       *)
(* ================================================================== *)

(** A decoded JSON document, as [response.json()] returns it.  A number
    is kept as its decimal mantissa and exponent. *)
#[warnings="-register-all"]
Inductive json : Type :=
| JNull
| JBool (b : bool)
| JNum (mantissa exponent : Z)
| JStr (s : string)
| JArr (items : list json)
| JObj (members : list (string * json)).

(** Python's truth value of a decoded document. *)
Definition truthy (j : json) : bool :=
  match j with
  | JNull => false
  | JBool b => b
  | JNum mantissa _ => negb (mantissa =? 0)
  | JStr s => negb (String.eqb s "")
  | JArr items => match items with [] => false | _ => true end
  | JObj members => match members with [] => false | _ => true end
  end.

Fixpoint lookup (key : string) (members : list (string * json)) : option json :=
  match members with
  | [] => None
  | (k, v) :: rest => if String.eqb k key then Some v else lookup key rest
  end.

(** [d.get(key)]: the member, or [None]; only a dict has [get]. *)
Definition dict_get (d : json) (key : string) : option json :=
  match d with
  | JObj members =>
      Some match lookup key members with Some v => v | None => JNull end
  | _ => None
  end.

(** [j == s] for a string literal [s]. *)
Definition is_str (j : json) (s : string) : bool :=
  match j with JStr t => String.eqb t s | _ => false end.

Record Response : Type := mkResponse {
  status_code : Z;
  body : option json        (* [None]: the text is not valid JSON *)
}.

(** What [session.get] does: raise a [RequestException] or answer. *)
Inductive Reply : Type :=
| RequestFailed
| Replied (r : Response).

Inductive WaitError : Type :=
| TimeoutError
| ValueError
| AttributeError
| JSONDecodeError.

Inductive WaitOutcome : Type :=
| WaitReturn (result_url : json)
| WaitRaise (e : WaitError).

(** One pass through the body of the [while] loop, up to the sleep. *)
Inductive PollStep : Type :=
| StepDone (o : WaitOutcome)   (* [return] or an exception that escapes *)
| StepRateLimited              (* status 429: long sleep, [continue] *)
| StepGoOn.                    (* fall through to the backoff sleep *)

(** [json_error_caught] tells whether the [JSONDecodeError] of
    [response.json()] is a [RequestException] (requests 2.27 and later)
    and so is caught by the [except] clause. *)
Definition poll_step (json_error_caught : bool) (reply : Reply) : PollStep :=
  match reply with
  | RequestFailed => StepGoOn
  | Replied response =>
      if status_code response =? 429 then StepRateLimited
      else if (400 <=? status_code response) && (status_code response <? 600)
      then StepGoOn                       (* raise_for_status, caught *)
      else
        match body response with
        | None => if json_error_caught then StepGoOn
                  else StepDone (WaitRaise JSONDecodeError)
        | Some data =>
            match dict_get data "status" with
            | None => StepDone (WaitRaise AttributeError)
            | Some status =>
                if is_str status "Task not found" then StepGoOn
                else
                  let result :=
                    match dict_get data "result" with
                    | Some r => r | None => JNull end in
                  if is_str status "Ready" && truthy result then
                    match dict_get result "sample" with
                    | None => StepDone (WaitRaise AttributeError)
                    | Some result_url =>
                        if truthy result_url
                        then StepDone (WaitReturn result_url)
                        else StepDone (WaitRaise ValueError)
                    end
                  else StepGoOn
            end
        end
  end.

(** The surroundings of a call: the clock counts ticks, [ticks_per_second]
    to the second; the [i]-th request gets [reply i]; the [i]-th pass
    through the loop takes [overhead i] ticks on top of the time it asks
    to sleep. *)
Record PollEnv : Type := mkPollEnv {
  ticks_per_second : Z;
  reply : nat -> Reply;
  overhead : nat -> Z;
  json_error_caught : bool
}.

Definition MAX_WAIT_TIME : Z := 600.
Definition INITIAL_RETRY_DELAY : Z := 2.
Definition MAX_RETRY_DELAY : Z := 30.

Record WaitRun : Type := mkWaitRun {
  wait_outcome : WaitOutcome;
  wait_polls : list Z;          (* clock at each request, latest first *)
  wait_sleeps : list Z;         (* seconds asked of [time.sleep], latest first *)
  wait_end : Z                  (* clock when the call ends *)
}.

(** The [while] loop, entered at clock [now] with the [i]-th request
    ahead.  [fuel] bounds the number of passes. *)
Fixpoint wait_loop (fuel : nat) (env : PollEnv) (start_time now : Z)
    (current_delay : Z) (polls sleeps : list Z) : option WaitRun :=
  match fuel with
  | O => None
  | S fuel' =>
      if now - start_time <? MAX_WAIT_TIME * ticks_per_second env then
        let i := length polls in
        match poll_step (json_error_caught env) (reply env i) with
        | StepDone o =>
            Some (mkWaitRun o (now :: polls) sleeps (now + overhead env i))
        | StepRateLimited =>
            let s := Z.min (current_delay * 2) MAX_RETRY_DELAY in
            wait_loop fuel' env start_time
              (now + s * ticks_per_second env + overhead env i)
              current_delay (now :: polls) (s :: sleeps)
        | StepGoOn =>
            wait_loop fuel' env start_time
              (now + current_delay * ticks_per_second env + overhead env i)
              (Z.min (current_delay * 2) MAX_RETRY_DELAY)
              (now :: polls) (current_delay :: sleeps)
        end
      else Some (mkWaitRun (WaitRaise TimeoutError) polls sleeps now)
  end.

(** [FluxGenerator._wait_for_result(task_id)], called at clock
    [start_time]. *)
Definition _wait_for_result (fuel : nat) (env : PollEnv) (start_time : Z)
  : option WaitRun :=
  wait_loop fuel env start_time start_time INITIAL_RETRY_DELAY [] [].

(** A reply that ends the call: it makes the loop return or raise. *)
Definition decisive (env : PollEnv) (i : nat) : bool :=
  match poll_step (json_error_caught env) (reply env i) with
  | StepDone _ => true
  | _ => false
  end.

(** A clock that does not run backwards and ticks at a positive rate. *)
Definition steady (env : PollEnv) : Prop :=
  0 < ticks_per_second env /\ forall i, 0 <= overhead env i.

Definition ready_reply (url : string) : Reply :=
  Replied (mkResponse 200
    (Some (JObj [("id"%string, JStr "t1"); ("status"%string, JStr "Ready");
                 ("result"%string, JObj [("sample"%string, JStr url)])]))).

Definition pending_reply : Reply :=
  Replied (mkResponse 200 (Some (JObj [("status"%string, JStr "Pending")]))).

Definition rate_limit_reply : Reply := Replied (mkResponse 429 None).

(** The server that answers 429 to the first 149 requests and "Pending"
    from then on, on a clock of one tick per second and with requests
    that take no time. *)
Definition busy_env : PollEnv :=
  mkPollEnv 1
    (fun i => if Nat.ltb i 149 then rate_limit_reply else pending_reply)
    (fun _ => 0) true.

Definition quick_env : PollEnv :=
  mkPollEnv 1000
    (fun i => if Nat.ltb i 3 then pending_reply
              else ready_reply "https://cdn/x.png")
    (fun _ => 250) true.


Definition down_env : PollEnv :=
  mkPollEnv 1000 (fun _ => RequestFailed) (fun _ => 30000) true.

Definition quick_run : WaitRun :=
  mkWaitRun (WaitReturn (JStr "https://cdn/x.png"))
    [14750; 6500; 2250; 0] [8; 4; 2] 15000.

(** What the loop keeps: the sleeps so far add up to at least four
    seconds a pass, but for the one pass that slept the initial two. *)
Definition wait_inv (env : PollEnv) (start_time : Z) (now delay : Z)
    (polls sleeps : list Z) : Prop :=
  let tps := ticks_per_second env in
  let i := Z.of_nat (length polls) in
  (length polls <= 151)%nat
  /\ ((delay = 2 /\ 4 * i * tps <= now - start_time)
      \/ (4 <= delay <= 30 /\ (4 * i - 2) * tps <= now - start_time))
  /\ Forall (fun t => t - start_time < MAX_WAIT_TIME * tps) polls
  /\ Forall (fun s => 2 <= s <= 30) sleeps
  /\ (forall k, (k < length polls)%nat -> decisive env k = false).

Definition wait_post (env : PollEnv) (start_time : Z) (run : WaitRun)
  : Prop :=
  let tps := ticks_per_second env in
  (length (wait_polls run) <= 151)%nat
  /\ Forall (fun t => t - start_time < MAX_WAIT_TIME * tps) (wait_polls run)
  /\ Forall (fun s => 2 <= s <= 30) (wait_sleeps run)
  /\ match wait_outcome run with
     | WaitRaise TimeoutError =>
         MAX_WAIT_TIME * tps <= wait_end run - start_time
         /\ forall k, (k < length (wait_polls run))%nat ->
                      decisive env k = false
     | o =>
         exists n, length (wait_polls run) = S n
           /\ poll_step (json_error_caught env) (reply env n) = StepDone o
           /\ forall k, (k < n)%nat -> decisive env k = false
     end.

(* ================================================================== *)
(** ** reddit_data_collector.py: [RedditCrawler]                       *)
(* ================================================================== *)

Definition MAX_COMMENTS : nat := 3.

Definition VISUAL_KEYWORDS : list pystr :=
  map lit
    [ (* Physical environments *)
      "background"; "light"; "space"; "room"; "street"; "environment";
      "studio"; "outdoor"; "indoor"; "natural"; "artificial"; "urban";
      "architecture"; "interior"; "exterior";
      (* Lighting conditions *)
      "lighting"; "sunlight"; "shadow"; "bright"; "dark"; "moody";
      "dramatic"; "soft"; "harsh"; "warm"; "cool"; "ambient";
      "golden hour";
      (* Style elements *)
      "aesthetic"; "mood"; "vibe"; "atmosphere"; "texture"; "pattern";
      "color"; "minimalist"; "modern"; "vintage"; "retro"; "contemporary";
      "classic";
      (* Visual composition *)
      "composition"; "perspective"; "depth"; "focus"; "sharp"; "contrast";
      "balance"; "symmetry"; "proportion"; "detail"; "silhouette"; "shape";
      (* Materials and textures *)
      "wood"; "metal"; "glass"; "concrete"; "brick"; "stone"; "leather";
      "smooth"; "rough"; "matte"; "glossy"; "textured"; "patterned"
    ]%string.

(** [RedditCrawler._has_relevant_keywords(text)]; [None] is Python's
    [None]. *)
Definition _has_relevant_keywords (text : option pystr) : bool :=
  match text with
  | None | Some [] => false
  | Some text =>
      existsb (fun keyword => str_in keyword (str_lower text)) VISUAL_KEYWORDS
  end.

Definition chr (s : string) : ascii :=
  match s with String c _ => c | EmptyString => Ascii.zero end.

Definition newline : ascii := ascii_of_N 10.

(** Where, counted from the start of [s], the first "](" stands that no
    line break precedes. *)
Fixpoint find_link_middle (s : pystr) : option nat :=
  match s with
  | [] => None
  | c :: s' =>
      if Ascii.eqb c (chr "]") && startswith (lit "(") s' then Some 0%nat
      else if Ascii.eqb c newline then None
      else option_map S (find_link_middle s')
  end.

(** Where the first ")" stands that no line break precedes. *)
Fixpoint find_link_end (s : pystr) : option nat :=
  match s with
  | [] => None
  | c :: s' =>
      if Ascii.eqb c (chr ")") then Some 0%nat
      else if Ascii.eqb c newline then None
      else option_map S (find_link_end s')
  end.

(** Length of the match of [\[.*?\]\(.*?\)] at the start of [s], if it
    matches there. *)
Definition match_link (s : pystr) : option nat :=
  match s with
  | c :: s' =>
      if Ascii.eqb c (chr "[") then
        match find_link_middle s' with
        | Some j =>
            match find_link_end (skipn (j + 2) s') with
            | Some k => Some (1 + (j + 2) + (k + 1))%nat
            | None => None
            end
        | None => None
        end
      else None
  | [] => None
  end.

Fixpoint span_nonspace (s : pystr) : nat :=
  match s with
  | c :: s' => if isspace c then 0%nat else S (span_nonspace s')
  | [] => 0%nat
  end.

(** Length of the match of [http\S+] at the start of [s]. *)
Definition match_url (s : pystr) : option nat :=
  if startswith (lit "http") s then
    match span_nonspace (skipn 4 s) with
    | O => None
    | n => Some (4 + n)%nat
    end
  else None.

(** [re.sub(pattern, '', s)] for a pattern that never matches the empty
    string: scan from the left, drop every match, go on behind it.
    [skip] characters of a match found earlier are still to be dropped. *)
Fixpoint re_sub_drop (match_at : pystr -> option nat) (skip : nat)
    (s : pystr) : pystr :=
  match s with
  | [] => []
  | c :: s' =>
      match skip with
      | S skip' => re_sub_drop match_at skip' s'
      | O =>
          match match_at s with
          | Some n => re_sub_drop match_at (pred n) s'
          | None => c :: re_sub_drop match_at 0 s'
          end
      end
  end.

(** [RedditCrawler._clean_text(text)]. *)
Definition _clean_text (text : option pystr) : pystr :=
  match text with
  | None | Some [] => []
  | Some text =>
      let text := re_sub_drop match_link 0 text in   (* markdown links *)
      let text := re_sub_drop match_url 0 text in    (* URLs *)
      str_strip text
  end.


(** The keywords that contain another keyword. *)
Definition SUBSUMED_KEYWORDS : list pystr :=
  map lit ["lighting"; "sunlight"; "moody"; "textured"; "patterned"]%string.

Definition pystr_eqb (a b : pystr) : bool :=
  if list_eq_dec ascii_dec a b then true else false.

(** One sequence is obtained from the other by deleting elements. *)
Inductive Subseq {A : Type} : list A -> list A -> Prop :=
| Subseq_nil : Subseq [] []
| Subseq_keep x l1 l2 : Subseq l1 l2 -> Subseq (x :: l1) (x :: l2)
| Subseq_drop x l1 l2 : Subseq l1 l2 -> Subseq l1 (x :: l2).

(** No URL starts anywhere in the text. *)
Definition no_url (s : pystr) : Prop :=
  forall pre post, s = pre ++ post -> match_url post = None.

(** The text neither begins nor ends with white space. *)
Definition stripped (s : pystr) : Prop :=
  match s with [] => True | c :: _ => isspace c = false end
  /\ match rev s with [] => True | c :: _ => isspace c = false end.

(** A comment and a submission as the Reddit client hands them over.
    [selftext] is [None] when the object has no such attribute;
    [comments] is [None] when fetching the comments raises. *)
Record Comment : Type := mkComment {
  comment_body : pystr;
  stickied : bool
}.

Record Submission : Type := mkSubmission {
  title : pystr;
  selftext : option pystr;
  comments : option (list Comment);
  score : Z;
  num_comments : Z
}.

(** The dictionary [_extract_post_data] returns, by its keys "t", "d",
    "c", "s" and "nc". *)
Record PostData : Type := mkPostData {
  post_t : pystr;
  post_d : option pystr;
  post_c : option (list pystr);
  post_s : Z;
  post_nc : Z
}.

Inductive Extracted : Type :=
| ExtractValueError
| ExtractNone
| ExtractData (data : PostData).

(** Python's truth value of a string or a list. *)
Definition nonempty {A} (l : list A) : bool :=
  match l with [] => false | _ => true end.

(** The loop over [post.comments[:self.MAX_COMMENTS]]. *)
Definition top_comments (cs : list Comment) : list pystr :=
  map (fun comment => _clean_text (Some (comment_body comment)))
    (filter (fun comment =>
               nonempty (str_strip (comment_body comment))
               && negb (stickied comment))
       (firstn MAX_COMMENTS cs)).

(** [RedditCrawler._extract_post_data(post)]. *)
Definition _extract_post_data (post : option Submission) : Extracted :=
  match post with
  | None => ExtractValueError
  | Some post =>
      let title := str_strip (title post) in
      let description :=
        match selftext post with Some x => str_strip x | None => [] end in
      match comments post with
      | None => ExtractNone
      | Some cs =>
          let comments := top_comments cs in
          if negb (_has_relevant_keywords (Some title)
                   || _has_relevant_keywords (Some description)
                   || existsb (fun c => _has_relevant_keywords (Some c))
                        comments)
          then ExtractNone
          else ExtractData
                 (mkPostData title
                    (if nonempty description then Some description else None)
                    (if nonempty comments then Some comments else None)
                    (score post) (num_comments post))
      end
  end.

(* ================================================================== *)
(** ** main.py: [create_customer_recommendations]                      *)
(* ================================================================== *)

Section Recommendations.

(** The types of the cells of the columns 'customer_id' and
    'confidence'; the code only copies them. *)
Context {Id Conf : Type}.

Record PredictionRow : Type := mkPredictionRow {
  customer_id : Id;
  predicted_category : string;
  confidence : Conf
}.

Record RecommendationRow : Type := mkRecommendationRow {
  rec_customer_id : Id;
  rec_predicted_category : string;
  enhanced_image_path : string;
  prediction_confidence : Conf
}.

Inductive RecError : Type :=
| KeyError (key : string)
| SampleValueError.

Fixpoint dict_lookup {V} (key : string) (d : list (string * V)) : option V :=
  match d with
  | [] => None
  | (k, v) :: rest => if String.eqb k key then Some v else dict_lookup key rest
  end.

(** [d[key] = v]. *)
Fixpoint dict_set {V} (key : string) (v : V) (d : list (string * V))
  : list (string * V) :=
  match d with
  | [] => [(key, v)]
  | (k, v0) :: rest =>
      if String.eqb k key then (k, v) :: rest
      else (k, v0) :: dict_set key v rest
  end.

(** [pd.Series(images).sample(1).iloc[0]]: one element, chosen by the
    random number [r]; an empty series cannot be sampled. *)
Definition sample_one (images : list string) (r : nat) : RecError + string :=
  match images with
  | [] => inl SampleValueError
  | x :: _ => inr (nth (r mod length images) images x)
  end.

(** The loop over [predictions_df.iterrows()]; [rng i] is the random
    number drawn for row [i]. *)
Fixpoint recommend_rows (rows : list PredictionRow)
    (category_images : list (string * list string)) (rng : nat -> nat)
    (i : nat) : RecError + list RecommendationRow :=
  match rows with
  | [] => inr []
  | row :: rest =>
      let category := predicted_category row in
      match dict_lookup category category_images with
      | None => inl (KeyError category)
      | Some images =>
          match sample_one images (rng i) with
          | inl e => inl e
          | inr enhanced_image =>
              match recommend_rows rest category_images rng (S i) with
              | inl e => inl e
              | inr results =>
                  inr (mkRecommendationRow (customer_id row) category
                         enhanced_image (confidence row) :: results)
              end
          end
      end
  end.

(** [create_customer_recommendations(predictions_df, category_images)]. *)
Definition create_customer_recommendations (predictions_df : list PredictionRow)
    (category_images : list (string * list string)) (rng : nat -> nat)
  : RecError + list RecommendationRow :=
  recommend_rows predictions_df category_images rng 0.

(** [series.unique()]: the values in the order of their first
    appearance. *)
Fixpoint unique_from (seen : list string) (values : list string)
  : list string :=
  match values with
  | [] => []
  | x :: rest =>
      if existsb (String.eqb x) seen then unique_from seen rest
      else x :: unique_from (x :: seen) rest
  end.

Definition unique (values : list string) : list string :=
  unique_from [] values.

(** Lines 185-188 of [main]: every predicted category is given the one
    enhanced image. *)
Definition main_category_images (predictions_df : list PredictionRow)
    (enhanced_path : string) : list (string * list string) :=
  let unique_categories := unique (map predicted_category predictions_df) in
  fold_left (fun category_images category =>
               dict_set category [enhanced_path] category_images)
    unique_categories [].

End Recommendations.
Arguments PredictionRow : clear implicits.
Arguments RecommendationRow : clear implicits.

Definition sample_submission : Submission :=
  mkSubmission (lit "  Golden hour fit  ") (Some (lit ""))
    (Some [ mkComment (lit "pinned: read the rules") true;
            mkComment (lit " love it, see http://img.example/a.png ") false;
            mkComment (lit "   ") false;
            mkComment (lit "the lighting is great") false ])
    120 4.

Definition sample_post_data : PostData :=
  mkPostData (lit "Golden hour fit") None (Some [lit "love it, see"]) 120 4.

(** The text of an argument: [None] holds none. *)
Definition text_of (text : option pystr) : pystr :=
  match text with Some t => t | None => [] end.

(* ================================================================== *)
(** ** Time-stamped result files                                       *)
(* ================================================================== *)

(** What [datetime.now()] returns, by its fields. *)
Record datetime : Type := mkDatetime {
  year : Z; month : Z; day : Z;
  hour : Z; minute : Z; second : Z
}.

(** The fields are in the ranges of a [datetime] whose year has four
    digits. *)
Definition valid_datetime (t : datetime) : bool :=
  (1000 <=? year t) && (year t <=? 9999)
  && (1 <=? month t) && (month t <=? 12)
  && (1 <=? day t) && (day t <=? 31)
  && (0 <=? hour t) && (hour t <? 24)
  && (0 <=? minute t) && (minute t <? 60)
  && (0 <=? second t) && (second t <? 60).

Definition then_compare (c1 c2 : comparison) : comparison :=
  match c1 with Eq => c2 | _ => c1 end.

(** Which of two moments is the earlier. *)
Definition datetime_compare (a b : datetime) : comparison :=
  then_compare (Z.compare (year a) (year b))
    (then_compare (Z.compare (month a) (month b))
       (then_compare (Z.compare (day a) (day b))
          (then_compare (Z.compare (hour a) (hour b))
             (then_compare (Z.compare (minute a) (minute b))
                (Z.compare (second a) (second b)))))).

Definition digit (n : Z) : ascii := ascii_of_N (Z.to_N (48 + n mod 10)).

(** The last [width] decimal digits of [n], zeros in front. *)
Fixpoint zero_padded (width : nat) (n : Z) : string :=
  match width with
  | O => EmptyString
  | S w => (zero_padded w (n / 10) ++ String (digit n) EmptyString)%string
  end.

(** [t.strftime('%Y%m%d_%H%M%S')]. *)
Definition strftime_Ymd_HMS (t : datetime) : string :=
  (zero_padded 4 (year t) ++ zero_padded 2 (month t) ++ zero_padded 2 (day t)
   ++ "_" ++ zero_padded 2 (hour t) ++ zero_padded 2 (minute t)
   ++ zero_padded 2 (second t))%string.

(** The names [f"trend_analysis_{timestamp}.json"] of [analyze_trends]
    and [f"reddit_data_{timestamp}.json"] of [save_data]. *)
Definition stamped_name (stem : string) (t : datetime) : string :=
  (stem ++ strftime_Ymd_HMS t ++ ".json")%string.

Definition trend_analysis_name : datetime -> string :=
  stamped_name "trend_analysis_".

Definition reddit_data_name : datetime -> string :=
  stamped_name "reddit_data_".

(** Python's [max(files)] on the files of one directory, which are
    ordered by their names: the first of the greatest; [None] stands for
    the [ValueError] on an empty list. *)
Fixpoint max_from (best : string) (files : list string) : string :=
  match files with
  | [] => best
  | f :: rest => max_from (if String.ltb best f then f else best) rest
  end.

Definition py_max (files : list string) : option string :=
  match files with
  | [] => None
  | f :: rest => Some (max_from f rest)
  end.

(** The number a time stamp spells when the underscore is left out. *)
Definition stamp_number (t : datetime) : Z :=
  ((((year t * 100 + month t) * 100 + day t) * 100 + hour t) * 100
   + minute t) * 100 + second t.

Definition sample_moments : list datetime :=
  [ mkDatetime 2025 1 31 9 5 2;
    mkDatetime 2025 12 1 0 0 0;
    mkDatetime 2025 2 28 23 59 59 ].

(* ================================================================== *)
(** ** Arrays: shape and indexing                                      *)
(* ================================================================== *)

Create HintDb shape discriminated.

Lemma rectangularb_spec (h w : nat) (a : ndarray) :
  rectangularb h w a = true <-> rectangular h w a.
Proof.
  unfold rectangularb, rectangular.
  rewrite andb_true_iff, Nat.eqb_eq, forallb_forall, Forall_forall.
  split; intros [E F]; split; trivial; intros r Hr.
  - now apply Nat.eqb_eq, F.
  - now apply Nat.eqb_eq, F.
Qed.

Lemma rectangular_nrows (h w : nat) (a : ndarray) :
  rectangular h w a -> nrows a = h.
Proof. now intros [E _]. Qed.

Lemma rectangular_ncols (h w : nat) (a : ndarray) :
  (0 < h)%nat -> rectangular h w a -> ncols a = w.
Proof.
  intros Hh [E F]. unfold ncols.
  destruct a as [|r a]; simpl in *; [lia|].
  now inversion F.
Qed.

Lemma tabulate_rectangular (h w : nat) (f : nat -> nat -> Z) :
  rectangular h w (tabulate h w f).
Proof.
  unfold rectangular, tabulate. split.
  - now rewrite length_map, length_seq.
  - apply Forall_forall. intros r Hr.
    apply in_map_iff in Hr as (y & <- & _).
    now rewrite length_map, length_seq.
Qed.

Lemma tabulate_ext (h w : nat) (f g : nat -> nat -> Z) :
  (forall y x, (y < h)%nat -> (x < w)%nat -> f y x = g y x) ->
  tabulate h w f = tabulate h w g.
Proof.
  intros E. unfold tabulate.
  apply map_ext_in. intros y Hy. apply in_seq in Hy.
  apply map_ext_in. intros x Hx. apply in_seq in Hx.
  apply E; lia.
Qed.

Lemma item_tabulate (h w : nat) (f : nat -> nat -> Z) (y x : Z) :
  0 <= y < Z.of_nat h -> 0 <= x < Z.of_nat w ->
  item (tabulate h w f) y x = f (Z.to_nat y) (Z.to_nat x).
Proof.
  intros Hy Hx. unfold item, tabulate.
  rewrite (nth_indep _ [] (map (f 0%nat) (seq 0 w)))
    by (rewrite length_map, length_seq; lia).
  rewrite (map_nth (fun y => map (f y) (seq 0 w)) (seq 0 h) 0%nat).
  rewrite seq_nth by lia. simpl.
  rewrite (nth_indep _ 0 (f (Z.to_nat y) 0%nat))
    by (rewrite length_map, length_seq; lia).
  rewrite (map_nth (f (Z.to_nat y)) (seq 0 w) 0%nat).
  now rewrite seq_nth by lia.
Qed.

(** A rectangular array is the table of its own entries. *)
Lemma rectangular_tabulate (h w : nat) (a : ndarray) :
  rectangular h w a ->
  a = tabulate h w (fun y x => item a (Z.of_nat y) (Z.of_nat x)).
Proof.
  intros [E F]. unfold tabulate, item.
  apply (nth_ext _ _ [] []).
  - now rewrite length_map, length_seq.
  - intros y Hy.
    rewrite (nth_indep (map _ _) []
               (map (fun x => nth (Z.to_nat (Z.of_nat x))
                                (nth (Z.to_nat (Z.of_nat 0)) a []) 0) (seq 0 w)))
      by (rewrite length_map, length_seq; lia).
    rewrite (map_nth (fun y => map (fun x => nth (Z.to_nat (Z.of_nat x))
                                  (nth (Z.to_nat (Z.of_nat y)) a []) 0) (seq 0 w))
               (seq 0 h) 0%nat).
    rewrite seq_nth by lia. simpl. rewrite Nat2Z.id.
    assert (Hl : length (nth y a []) = w).
    { rewrite Forall_forall in F. apply F, nth_In. lia. }
    apply (nth_ext _ _ 0 0).
    + now rewrite length_map, length_seq.
    + intros x Hx.
      rewrite (nth_indep (map _ _) 0
                 (nth (Z.to_nat (Z.of_nat 0)) (nth y a []) 0))
        by (rewrite length_map, length_seq; lia).
      rewrite (map_nth (fun x => nth (Z.to_nat (Z.of_nat x)) (nth y a []) 0)
                 (seq 0 w) 0%nat).
      rewrite seq_nth by lia. simpl. now rewrite Nat2Z.id.
Qed.

Lemma all_samples_tabulate (P : Z -> Prop) (h w : nat) (f : nat -> nat -> Z) :
  (forall y x, (y < h)%nat -> (x < w)%nat -> P (f y x)) ->
  all_samples P (tabulate h w f).
Proof.
  intros H. unfold all_samples, tabulate.
  apply Forall_forall. intros r Hr.
  apply in_map_iff in Hr as (y & <- & Hy). apply in_seq in Hy.
  apply Forall_forall. intros v Hv.
  apply in_map_iff in Hv as (x & <- & Hx). apply in_seq in Hx.
  apply H; lia.
Qed.

Lemma all_samples_item (P : Z -> Prop) (h w : nat) (a : ndarray) (y x : Z) :
  rectangular h w a -> all_samples P a ->
  0 <= y < Z.of_nat h -> 0 <= x < Z.of_nat w ->
  P (item a y x).
Proof.
  intros [E F] A Hy Hx. unfold item, all_samples in *.
  rewrite Forall_forall in A, F.
  assert (Hin : In (nth (Z.to_nat y) a []) a) by (apply nth_In; lia).
  specialize (A _ Hin). rewrite Forall_forall in A.
  apply A, nth_In. rewrite (F _ Hin). lia.
Qed.

(* ================================================================== *)
(** ** The binarization rule                                           *)
(* ================================================================== *)

Lemma binarize_map (a : ndarray) :
  binarize a = map (map (fun v => if v >? 127 then 0 else 255)) a.
Proof.
  unfold binarize, np.astype_uint8, np.where_, np.greater, ALPHA_THRESHOLD.
  rewrite !map_map. apply map_ext. intros r.
  rewrite !map_map. apply map_ext. intros v.
  now destruct (v >? 127).
Qed.

Lemma binarize_tabulate (h w : nat) (f : nat -> nat -> Z) :
  binarize (tabulate h w f)
  = tabulate h w (fun y x => if f y x >? 127 then 0 else 255).
Proof.
  rewrite binarize_map. unfold tabulate.
  rewrite map_map. apply map_ext. intros y. now rewrite map_map.
Qed.

Lemma binarize_rectangular (h w : nat) (a : ndarray) :
  rectangular h w a -> rectangular h w (binarize a).
Proof.
  intros [E F]. rewrite binarize_map. split.
  - now rewrite length_map.
  - apply Forall_forall. intros r Hr.
    apply in_map_iff in Hr as (r0 & <- & Hr0).
    rewrite length_map. rewrite Forall_forall in F. now apply F.
Qed.

Lemma binarize_binary (a : ndarray) : all_samples is_binary (binarize a).
Proof.
  rewrite binarize_map. unfold all_samples.
  apply Forall_forall. intros r Hr.
  apply in_map_iff in Hr as (r0 & <- & _).
  apply Forall_forall. intros v Hv.
  apply in_map_iff in Hv as (v0 & <- & _).
  unfold is_binary. destruct (v0 >? 127); auto.
Qed.

Lemma item_binarize (h w : nat) (a : ndarray) (y x : Z) :
  rectangular h w a ->
  0 <= y < Z.of_nat h -> 0 <= x < Z.of_nat w ->
  item (binarize a) y x = if item a y x >? 127 then 0 else 255.
Proof.
  intros R Hy Hx.
  rewrite (rectangular_tabulate h w a R) at 1.
  rewrite binarize_tabulate, item_tabulate by assumption.
  now rewrite !Z2Nat.id by lia.
Qed.

(** On a sample that is already 0 or 255 the rule exchanges the two. *)
Lemma rule_swaps (v : Z) :
  is_binary v -> (if v >? 127 then 0 else 255) = 255 - v.
Proof. now intros [-> | ->]. Qed.

(* ================================================================== *)
(** ** Resize: success and shape                                       *)
(* ================================================================== *)

Lemma resize_plane_rectangular (src : ndarray) (dw dh : nat) :
  rectangular dh dw (cv2.resize_plane src dw dh).
Proof.
  unfold cv2.resize_plane.
  destruct (_ && _); apply tabulate_rectangular.
Qed.

#[export] Hint Resolve tabulate_rectangular binarize_rectangular
  resize_plane_rectangular : shape.

Lemma resize_ok (h w : nat) (src : ndarray) (dw dh : nat) :
  (0 < h)%nat -> (0 < w)%nat -> rectangular h w src ->
  (0 < dw)%nat -> (0 < dh)%nat ->
  cv2.resize src (dw, dh) = inr (cv2.resize_plane src dw dh).
Proof.
  intros Hh Hw R Hdw Hdh. unfold cv2.resize.
  rewrite (rectangular_nrows h w src R), (rectangular_ncols h w src Hh R).
  destruct h, w, dw, dh; simpl; try lia. reflexivity.
Qed.

Lemma resize_plane_linear (h w : nat) (src : ndarray) (dw dh : nat) :
  (0 < h)%nat -> rectangular h w src ->
  Z.of_nat w <> 2 * Z.of_nat dw ->
  cv2.resize_plane src dw dh
  = tabulate dh dw
      (fun y x => cv2.resize_linear_at src (Z.of_nat w) (Z.of_nat h)
                    (Z.of_nat dw) (Z.of_nat dh) (Z.of_nat y) (Z.of_nat x)).
Proof.
  intros Hh R Hne. unfold cv2.resize_plane.
  rewrite (rectangular_nrows h w src R), (rectangular_ncols h w src Hh R).
  destruct (Z.eqb_spec (Z.of_nat w) (2 * Z.of_nat dw)); [contradiction|].
  reflexivity.
Qed.

(* ================================================================== *)
(** ** Decoded images                                                  *)
(* ================================================================== *)

Lemma size_convert_RGBA (im : PILImage) :
  Image.size (Image.convert_RGBA im) = Image.size im.
Proof.
  unfold Image.size, Image.convert_RGBA, Image.band.
  destruct im as [m bs t]. simpl. destruct m, bs; reflexivity.
Qed.

Lemma getitem_alpha (im : PILImage) :
  getitem (Image.split (Image.convert_RGBA im)) 3
  = inr (mkImageInfo L [alpha_plane im]
           (transparency (Image.convert_RGBA im))).
Proof.
  unfold alpha_plane, Image.convert_RGBA.
  destruct (mode im); reflexivity.
Qed.

Lemma valid_size_pos (im : PILImage) (w h : nat) :
  Image.valid im = true -> Image.size im = (w, h) ->
  (0 < w)%nat /\ (0 < h)%nat.
Proof.
  unfold Image.valid. intros V S. rewrite S in V.
  rewrite !andb_true_iff in V. destruct V as [[[[[_ Hw] Hh] _] _] _].
  apply Nat.ltb_lt in Hw, Hh. now split.
Qed.

Lemma valid_bands_rectangular (im : PILImage) (w h : nat) (i : nat) :
  Image.valid im = true -> Image.size im = (w, h) ->
  (i < Image.nbands (mode im))%nat ->
  rectangular h w (Image.band im i).
Proof.
  unfold Image.valid. intros V S Hi. rewrite S in V.
  rewrite !andb_true_iff in V. destruct V as [[[[[Hn _] _] Hr] _] _].
  apply Nat.eqb_eq in Hn. rewrite forallb_forall in Hr.
  apply rectangularb_spec, Hr. unfold Image.band.
  apply nth_In. lia.
Qed.

Lemma alpha_plane_by_mode (im : PILImage) :
  alpha_plane im
  = match mode im with
    | L | RGB => Image.added_alpha im
    | LA => Image.band im 1
    | RGBA => Image.band im 3
    end.
Proof. unfold alpha_plane, Image.convert_RGBA. now destruct (mode im). Qed.

Lemma alpha_plane_rectangular (im : PILImage) (w h : nat) :
  Image.valid im = true -> Image.size im = (w, h) ->
  rectangular h w (alpha_plane im).
Proof.
  intros V S. rewrite alpha_plane_by_mode.
  assert (A : rectangular h w (Image.added_alpha im)).
  { unfold Image.added_alpha, Image.transparent_alpha, Image.full.
    rewrite S. destruct (transparency im); apply tabulate_rectangular. }
  destruct (mode im) eqn:Em.
  - exact A.
  - apply (valid_bands_rectangular im w h 1 V S). rewrite Em. simpl. lia.
  - exact A.
  - apply (valid_bands_rectangular im w h 3 V S). rewrite Em. simpl. lia.
Qed.

(** An image without alpha band is opaque wherever it does not show the
    transparent colour it carries. *)
Lemma alpha_plane_no_alpha (im : PILImage) :
  mode im = RGB \/ mode im = L ->
  no_transparent_pixel im ->
  all_samples (fun v => v = 255) (alpha_plane im).
Proof.
  intros Hm Hk. rewrite alpha_plane_by_mode.
  assert (A : all_samples (fun v => v = 255) (Image.added_alpha im)).
  { unfold Image.added_alpha, Image.transparent_alpha, Image.full.
    unfold no_transparent_pixel in Hk.
    destruct (Image.size im) as [w h]. cbn [fst snd] in Hk.
    destruct (transparency im) as [t|]; apply all_samples_tabulate;
      [|reflexivity].
    intros y x Hy Hx. now rewrite Hk. }
  now destruct Hm as [-> | ->].
Qed.

(* ================================================================== *)
(** ** Running [create_mask]                                           *)
(* ================================================================== *)

Lemma supersampled_rectangular (factor : nat) (im : PILImage) (w h : nat) :
  Image.size im = (w, h) ->
  rectangular (h * factor) (w * factor) (supersampled_mask_at factor im).
Proof.
  intros S. unfold supersampled_mask_at. rewrite S.
  apply binarize_rectangular, resize_plane_rectangular.
Qed.

Lemma final_mask_rectangular (factor : nat) (im : PILImage) (w h : nat) :
  Image.size im = (w, h) ->
  rectangular h w (final_mask_at factor im).
Proof.
  intros S. unfold final_mask_at. rewrite S.
  apply binarize_rectangular, resize_plane_rectangular.
Qed.

Lemma dilate_ok (h w : nat) (src kernel : ndarray) (n : nat) :
  (0 < h)%nat -> (0 < w)%nat -> rectangular h w src ->
  exists zone, cv2.dilate src kernel n = inr zone.
Proof.
  intros Hh Hw R. unfold cv2.dilate.
  rewrite (rectangular_nrows h w src R), (rectangular_ncols h w src Hh R).
  destruct h, w; simpl; try lia. eauto.
Qed.

Lemma run_now (fmt : string) (w : World) :
  datetime_now_strftime fmt w = (w, [EvNow], inr (wall_clock w)).
Proof. reflexivity. Qed.

Lemma run_open (path : string) (w : World) :
  Image.open path w
  = (w, [EvOpen path],
     match files w path with
     | None => inl FileNotFoundError
     | Some NotAnImage => inl UnidentifiedImageError
     | Some f => inr f
     end).
Proof.
  unfold Image.open, tell, get_world, bind. cbv beta iota.
  now destruct (files w path) as [[| |im]|].
Qed.

(** The first two steps of either pipeline. *)
Ltac run_prelude :=
  unfold bind at 1; rewrite run_now; cbv beta iota;
  unfold bind at 1; rewrite run_open.

Section Run.

Variable Canny : cv2.CannyT.
Hypothesis Canny_ok : cv2.Canny_contract Canny.

Lemma create_mask_at_run (factor : nat) (self : MaskGenerator)
      (path : string) (w : World) (im : PILImage) :
  (0 < factor)%nat ->
  decodes_to w path im ->
  create_mask_at factor Canny self path w
  = (w, [EvNow; EvOpen path],
     inr (Image.fromarray (final_mask_at factor im))).
Proof.
  intros Hfac [Hf V].
  destruct (Image.size im) as [width height] eqn:S.
  destruct (valid_size_pos im width height V S) as [Hw Hh].
  pose proof (alpha_plane_rectangular im width height V S) as Ra.
  unfold create_mask_at. run_prelude. rewrite Hf. cbv beta iota.
  unfold bind, lift. cbn [Image.load_convert_RGBA]. rewrite V.
  rewrite size_convert_RGBA, S, getitem_alpha.
  cbn [np.array bands hd].
  fold (binarize (alpha_plane im)).
  assert (Hsw : (0 < width * factor)%nat) by nia.
  assert (Hsh : (0 < height * factor)%nat) by nia.
  rewrite (resize_ok height width) by auto with shape.
  match goal with
  | |- context [np.astype_uint8 (np.where_ (np.greater ?a _) 0 255)] =>
      fold (binarize a)
  end.
  pose proof (supersampled_rectangular factor im width height S) as Rl.
  unfold supersampled_mask_at in Rl. rewrite S in Rl.
  destruct (Canny_ok _ _ _ EDGE_LOW EDGE_HIGH Hsh Hsw Rl)
    as (edges & -> & Re).
  destruct (dilate_ok _ _ edges (np.ones 3 3) 1%nat Hsh Hsw Re)
    as (zone & ->).
  rewrite (resize_ok _ _ _ width height Hsh Hsw Rl Hw Hh).
  unfold ret, final_mask_at, supersampled_mask_at.
  rewrite S. reflexivity.
Qed.

Lemma create_mask_run (self : MaskGenerator) (path : string)
      (w : World) (im : PILImage) :
  decodes_to w path im ->
  create_mask Canny self path w
  = (w, [EvNow; EvOpen path], inr (Image.fromarray (final_mask_of im))).
Proof.
  intros D. unfold create_mask, final_mask_of.
  apply create_mask_at_run; [unfold SUPERSAMPLE_FACTOR; lia | exact D].
Qed.

Lemma create_mask_without_edges_run (self : MaskGenerator) (path : string)
      (w : World) (im : PILImage) :
  decodes_to w path im ->
  create_mask_without_edges self path w
  = (w, [EvNow; EvOpen path], inr (Image.fromarray (final_mask_of im))).
Proof.
  intros [Hf V].
  destruct (Image.size im) as [width height] eqn:S.
  destruct (valid_size_pos im width height V S) as [Hw Hh].
  pose proof (alpha_plane_rectangular im width height V S) as Ra.
  unfold create_mask_without_edges. run_prelude. rewrite Hf. cbv beta iota.
  unfold bind, lift. cbn [Image.load_convert_RGBA]. rewrite V.
  rewrite size_convert_RGBA, S, getitem_alpha.
  cbn [np.array bands hd].
  fold (binarize (alpha_plane im)).
  assert (Hsw : (0 < width * SUPERSAMPLE_FACTOR)%nat)
    by (unfold SUPERSAMPLE_FACTOR; lia).
  assert (Hsh : (0 < height * SUPERSAMPLE_FACTOR)%nat)
    by (unfold SUPERSAMPLE_FACTOR; lia).
  rewrite (resize_ok height width) by auto with shape.
  match goal with
  | |- context [np.astype_uint8 (np.where_ (np.greater ?a _) 0 255)] =>
      fold (binarize a)
  end.
  pose proof (supersampled_rectangular SUPERSAMPLE_FACTOR im width height S)
    as Rl.
  unfold supersampled_mask_at in Rl. rewrite S in Rl.
  rewrite (resize_ok _ _ _ width height Hsh Hsw Rl Hw Hh).
  unfold ret, final_mask_of, final_mask_at, supersampled_mask_at.
  rewrite S. reflexivity.
Qed.

(** When the file does not decode, both pipelines stop at the same
    point with the same exception. *)
Lemma create_mask_undecodable (self : MaskGenerator) (path : string)
      (w : World) :
  ~ decodable w path ->
  exists e,
    decode_error e
    /\ create_mask Canny self path w = (w, [EvNow; EvOpen path], inl e)
    /\ create_mask_without_edges self path w
       = (w, [EvNow; EvOpen path], inl e).
Proof.
  intros Hn. unfold decode_error.
  destruct (files w path) as [[| |im]|] eqn:Hf.
  - exists UnidentifiedImageError. split; [auto|].
    split; unfold create_mask, create_mask_at, create_mask_without_edges;
      run_prelude; rewrite Hf; reflexivity.
  - exists OSError. split; [auto|].
    split; unfold create_mask, create_mask_at, create_mask_without_edges;
      run_prelude; rewrite Hf; reflexivity.
  - destruct (Image.valid im) eqn:V.
    { exfalso. apply Hn. exists im. now split. }
    exists OSError. split; [auto|].
    split; unfold create_mask, create_mask_at, create_mask_without_edges;
      run_prelude; rewrite Hf; cbv beta iota; unfold bind, lift;
      cbn [Image.load_convert_RGBA]; rewrite V; reflexivity.
  - exists FileNotFoundError. split; [auto|].
    split; unfold create_mask, create_mask_at, create_mask_without_edges;
      run_prelude; rewrite Hf; reflexivity.
Qed.

End Run.

(* ================================================================== *)
(** ** Fixed-point arithmetic of the two resizes                       *)
(* ================================================================== *)

Lemma cvRound_frac_exact (k d : Z) : 0 < d -> cv2.cvRound_frac (k * d) d = k.
Proof.
  intros Hd. unfold cv2.cvRound_frac.
  rewrite Z.div_mul, Z.mod_mul by lia.
  destruct (Z.ltb_spec (2 * 0) d); [reflexivity | lia].
Qed.

(** Upsampling by 4: destination index [d] reads around source
    coordinate [(2d - 3) / 8]. *)
Lemma src_coord_up (n d : Z) :
  0 < n ->
  cv2.src_coord n (4 * n) d = ((2 * d - 3) / 8, n * ((2 * d - 3) mod 8)).
Proof.
  intros Hn. unfold cv2.src_coord.
  replace ((2 * d + 1) * n - 4 * n) with (n * (2 * d - 3)) by ring.
  replace (2 * (4 * n)) with (n * 8) by ring.
  rewrite Z.div_mul_cancel_l, Z.mul_mod_distr_l by lia.
  reflexivity.
Qed.

(** Downsampling by 4: destination index [d] reads half-way between
    source samples [4d + 1] and [4d + 2]. *)
Lemma src_coord_down (n d : Z) :
  0 < n ->
  cv2.src_coord (4 * n) n d = (4 * d + 1, n).
Proof.
  intros Hn. unfold cv2.src_coord.
  replace ((2 * d + 1) * (4 * n) - n) with (n * (8 * d + 3)) by ring.
  replace (2 * n) with (n * 2) by ring.
  rewrite Z.div_mul_cancel_l, Z.mul_mod_distr_l by lia.
  replace (8 * d + 3) with (1 + (4 * d + 1) * 2) by ring.
  rewrite Z.div_add, Z.mod_add by lia.
  change (1 / 2) with 0. change (1 mod 2) with 1.
  f_equal; lia.
Qed.

Lemma weights_exact (n : Z) :
  0 < n ->
  forall k, cv2.cvRound_frac ((2 * (4 * n) - n * k) * cv2.INTER_RESIZE_COEF_SCALE)
              (2 * (4 * n)) = (8 - k) * 256
            /\ cv2.cvRound_frac (n * k * cv2.INTER_RESIZE_COEF_SCALE)
                 (2 * (4 * n)) = k * 256.
Proof.
  intros Hn k. change cv2.INTER_RESIZE_COEF_SCALE with 2048. split.
  - replace ((2 * (4 * n) - n * k) * 2048)
      with ((8 - k) * 256 * (2 * (4 * n))) by ring.
    apply cvRound_frac_exact. lia.
  - replace (n * k * 2048) with (k * 256 * (2 * (4 * n))) by ring.
    apply cvRound_frac_exact. lia.
Qed.

Lemma weights_pinned (d : Z) :
  0 < d ->
  cv2.cvRound_frac ((d - 0) * cv2.INTER_RESIZE_COEF_SCALE) d = 2048
  /\ cv2.cvRound_frac (0 * cv2.INTER_RESIZE_COEF_SCALE) d = 0.
Proof.
  intros Hd. change cv2.INTER_RESIZE_COEF_SCALE with 2048. split.
  - replace ((d - 0) * 2048) with (2048 * d) by ring.
    now apply cvRound_frac_exact.
  - replace (0 * 2048) with (0 * d) by ring.
    now apply cvRound_frac_exact.
Qed.

Ltac split_offset b H :=
  let E := fresh in
  assert (E : b = 0 \/ b = 1 \/ b = 2 \/ b = 3) by lia;
  destruct E as [-> | [-> | [-> | ->]]].

Ltac reduce_coord c q r :=
  replace c with (r + q * 8) by ring;
  rewrite Z.div_add, Z.mod_add by lia;
  let d := eval cbv in (r / 8) in change (r / 8) with d;
  let m := eval cbv in (r mod 8) in change (r mod 8) with m;
  rewrite Z.add_0_l.

Ltac fix_offset :=
  repeat match goal with
    | |- context [own_weight ?b] =>
        let v := eval cbv in (own_weight b) in change (own_weight b) with v
    | |- context [?b <? 2] =>
        let v := eval cbv in (b <? 2) in change (b <? 2) with v
    | |- context [2048 - ?c] =>
        let v := eval cbv in (2048 - c) in change (2048 - c) with v
    end;
  cbv iota.

Lemma x_tap_up (n j b : Z) :
  0 <= j < n -> 0 <= b < 4 ->
  cv2.x_tap n (4 * n) (4 * j + b)
  = if b <? 2
    then (if j =? 0 then (0, 2048, 0)
          else (j - 1, 2048 - own_weight b, own_weight b))
    else (if j =? n - 1 then (n - 1, 2048, 0)
          else (j, own_weight b, 2048 - own_weight b)).
Proof.
  intros Hj Hb. unfold cv2.x_tap.
  rewrite src_coord_up by lia.
  destruct (weights_pinned (2 * (4 * n)) ltac:(lia)) as [P0 P1].
  split_offset b Hb; fix_offset.
  - reduce_coord (2 * (4 * j + 0) - 3) (j - 1) 5.
    destruct (Z.eqb_spec j 0) as [-> | Hj0].
    + destruct (Z.ltb_spec (0 - 1) 0); [|lia].
      destruct (Z.geb_spec 0 (n - 1)); rewrite P0, P1;
        repeat f_equal; lia.
    + destruct (Z.ltb_spec (j - 1) 0); [lia|].
      destruct (Z.geb_spec (j - 1) (n - 1)); [lia|].
      destruct (weights_exact n ltac:(lia) 5) as [-> ->]. reflexivity.
  - reduce_coord (2 * (4 * j + 1) - 3) (j - 1) 7.
    destruct (Z.eqb_spec j 0) as [-> | Hj0].
    + destruct (Z.ltb_spec (0 - 1) 0); [|lia].
      destruct (Z.geb_spec 0 (n - 1)); rewrite P0, P1;
        repeat f_equal; lia.
    + destruct (Z.ltb_spec (j - 1) 0); [lia|].
      destruct (Z.geb_spec (j - 1) (n - 1)); [lia|].
      destruct (weights_exact n ltac:(lia) 7) as [-> ->]. reflexivity.
  - reduce_coord (2 * (4 * j + 2) - 3) j 1.
    destruct (Z.ltb_spec j 0); [lia|].
    destruct (Z.eqb_spec j (n - 1)) as [-> | Hjn].
    + destruct (Z.geb_spec (n - 1) (n - 1)); [|lia].
      now rewrite P0, P1.
    + destruct (Z.geb_spec j (n - 1)); [lia|].
      destruct (weights_exact n ltac:(lia) 1) as [-> ->]. reflexivity.
  - reduce_coord (2 * (4 * j + 3) - 3) j 3.
    destruct (Z.ltb_spec j 0); [lia|].
    destruct (Z.eqb_spec j (n - 1)) as [-> | Hjn].
    + destruct (Z.geb_spec (n - 1) (n - 1)); [|lia].
      now rewrite P0, P1.
    + destruct (Z.geb_spec j (n - 1)); [lia|].
      destruct (weights_exact n ltac:(lia) 3) as [-> ->]. reflexivity.
Qed.

Lemma y_tap_up (n i a : Z) :
  0 < n -> 0 <= a < 4 ->
  cv2.y_tap n (4 * n) (4 * i + a)
  = if a <? 2
    then (i - 1, 2048 - own_weight a, own_weight a)
    else (i, own_weight a, 2048 - own_weight a).
Proof.
  intros Hn Ha. unfold cv2.y_tap.
  rewrite src_coord_up by lia.
  split_offset a Ha; fix_offset.
  - reduce_coord (2 * (4 * i + 0) - 3) (i - 1) 5.
    destruct (weights_exact n ltac:(lia) 5) as [-> ->]. reflexivity.
  - reduce_coord (2 * (4 * i + 1) - 3) (i - 1) 7.
    destruct (weights_exact n ltac:(lia) 7) as [-> ->]. reflexivity.
  - reduce_coord (2 * (4 * i + 2) - 3) i 1.
    destruct (weights_exact n ltac:(lia) 1) as [-> ->]. reflexivity.
  - reduce_coord (2 * (4 * i + 3) - 3) i 3.
    destruct (weights_exact n ltac:(lia) 3) as [-> ->]. reflexivity.
Qed.

(** The horizontal pass of the upsampling mixes the block's own source
    sample, with its own weight, and one sample of the same row. *)
Lemma hresize_up (src : ndarray) (n j b y : Z) :
  0 <= j < n -> 0 <= b < 4 ->
  exists o, 0 <= o < n
    /\ cv2.hresize src n (4 * n) y (4 * j + b)
       = item src y j * own_weight b + item src y o * (2048 - own_weight b).
Proof.
  intros Hj Hb. unfold cv2.hresize. rewrite x_tap_up by assumption.
  change cv2.INTER_RESIZE_COEF_SCALE with 2048.
  destruct (Z.ltb_spec b 2).
  - destruct (Z.eqb_spec j 0) as [-> | Hj0].
    + exists 0. split; [lia|]. destruct (0 + 1 >=? n); lia.
    + exists (j - 1). split; [lia|].
      destruct (Z.geb_spec (j - 1 + 1) n); [lia|].
      replace (j - 1 + 1) with j by lia. lia.
  - destruct (Z.eqb_spec j (n - 1)) as [-> | Hjn].
    + exists (n - 1). split; [lia|].
      destruct (Z.geb_spec (n - 1 + 1) n); lia.
    + exists (j + 1). split; [lia|].
      destruct (Z.geb_spec (j + 1) n); lia.
Qed.

Lemma own_weight_cases (b : Z) : own_weight b = 1280 \/ own_weight b = 1792.
Proof. unfold own_weight. destruct (_ || _); auto. Qed.

Lemma own_weight_not_corner (a b : Z) :
  block_corner a b = false -> own_weight a = 1792 \/ own_weight b = 1792.
Proof.
  unfold block_corner, own_weight.
  destruct ((a =? 0) || (a =? 3)), ((b =? 0) || (b =? 3)); auto; discriminate.
Qed.

Lemma shiftr_div (x : Z) (k : Z) : 0 <= k -> Z.shiftr x k = x / 2 ^ k.
Proof. intros. now apply Z.shiftr_div_pow2. Qed.

(** The vertical pass: when the own source sample is 0 or 255 and the
    destination is not a block corner, the own sample decides on which
    side of the threshold the interpolated value falls. *)
Lemma vresize_decided (wx wy v o other : Z) :
  (wx = 1280 \/ wx = 1792) -> (wy = 1280 \/ wy = 1792) ->
  (wx = 1792 \/ wy = 1792) ->
  is_binary v -> 0 <= o <= 255 -> 0 <= other <= 255 * 2048 ->
  let own := v * wx + o * (2048 - wx) in
  (if cv2.vresize (2048 - wy) wy other own >? 127 then 0 else 255) = 255 - v
  /\ (if cv2.vresize wy (2048 - wy) own other >? 127 then 0 else 255) = 255 - v.
Proof.
  intros Hwx Hwy Hnc Hv Ho Hoth own. subst own.
  unfold cv2.vresize. rewrite !shiftr_div by lia.
  change (2 ^ 4) with 16. change (2 ^ 16) with 65536. change (2 ^ 2) with 4.
  destruct Hv as [-> | ->];
    destruct Hwx as [-> | ->]; destruct Hwy as [-> | ->];
    try (destruct Hnc; discriminate);
    split;
    match goal with
    | |- (if ?c >? 127 then _ else _) = _ =>
        destruct (Z.gtb_spec c 127) as [G | G]; [|]; try reflexivity;
        exfalso; revert G; Z.div_mod_to_equations; lia
    end.
Qed.

Lemma binary_range (v : Z) : is_binary v -> 0 <= v <= 255.
Proof. intros [-> | ->]; lia. Qed.

Lemma clip_range (x n : Z) : 0 < n -> 0 <= cv2.clip x 0 n < n.
Proof.
  intros Hn. unfold cv2.clip.
  destruct (Z.leb_spec 0 x); [destruct (Z.ltb_spec x n)|]; lia.
Qed.

Lemma clip_inside (x n : Z) : 0 <= x < n -> cv2.clip x 0 n = x.
Proof.
  intros Hx. unfold cv2.clip.
  destruct (Z.leb_spec 0 x); [destruct (Z.ltb_spec x n)|]; lia.
Qed.

(** Upsampling a 0/255 plane by 4 and thresholding: every destination
    sample that is not a block corner carries the exchanged value of its
    block's source sample. *)
Lemma upsample_block (src : ndarray) (h w : nat) (i j a b : Z) :
  rectangular h w src -> all_samples is_binary src ->
  0 <= i < Z.of_nat h -> 0 <= j < Z.of_nat w ->
  0 <= a < 4 -> 0 <= b < 4 -> block_corner a b = false ->
  (if cv2.resize_linear_at src (Z.of_nat w) (Z.of_nat h)
        (4 * Z.of_nat w) (4 * Z.of_nat h) (4 * i + a) (4 * j + b) >? 127
   then 0 else 255)
  = 255 - item src i j.
Proof.
  intros R B Hi Hj Ha Hb Hc.
  assert (Bi : forall y x, 0 <= y < Z.of_nat h -> 0 <= x < Z.of_nat w ->
                           is_binary (item src y x))
    by (intros; now apply (all_samples_item is_binary h w)).
  unfold cv2.resize_linear_at. rewrite y_tap_up by lia.
  pose proof (own_weight_not_corner a b Hc) as Hn.
  pose proof (own_weight_cases a) as Wa.
  pose proof (own_weight_cases b) as Wb.
  destruct (hresize_up src (Z.of_nat w) j b i Hj Hb) as (o & Ho & Eown).
  pose proof (binary_range _ (Bi i o Hi Ho)) as Bo.
  destruct (Z.ltb_spec a 2).
  - replace (i - 1 + 1) with i by lia.
    rewrite (clip_inside i) by lia. rewrite Eown.
    pose proof (clip_range (i - 1) (Z.of_nat h) ltac:(lia)) as Hr.
    destruct (hresize_up src (Z.of_nat w) j b
                (cv2.clip (i - 1) 0 (Z.of_nat h)) Hj Hb) as (o' & Ho' & ->).
    pose proof (binary_range _ (Bi _ j Hr Hj)) as B1.
    pose proof (binary_range _ (Bi _ o' Hr Ho')) as B2.
    assert (Hoth : 0 <= item src (cv2.clip (i - 1) 0 (Z.of_nat h)) j
                         * own_weight b
                       + item src (cv2.clip (i - 1) 0 (Z.of_nat h)) o'
                         * (2048 - own_weight b) <= 255 * 2048)
      by (destruct Wb as [-> | ->]; lia).
    pose proof (vresize_decided (own_weight b) (own_weight a) (item src i j)
                  (item src i o) _ Wb Wa ltac:(tauto) (Bi i j Hi Hj) Bo Hoth)
      as D.
    cbv zeta in D. destruct D as [D1 D2]. exact D1.
  - rewrite (clip_inside i) by lia. rewrite Eown.
    pose proof (clip_range (i + 1) (Z.of_nat h) ltac:(lia)) as Hr.
    destruct (hresize_up src (Z.of_nat w) j b
                (cv2.clip (i + 1) 0 (Z.of_nat h)) Hj Hb) as (o' & Ho' & ->).
    pose proof (binary_range _ (Bi _ j Hr Hj)) as B1.
    pose proof (binary_range _ (Bi _ o' Hr Ho')) as B2.
    assert (Hoth : 0 <= item src (cv2.clip (i + 1) 0 (Z.of_nat h)) j
                         * own_weight b
                       + item src (cv2.clip (i + 1) 0 (Z.of_nat h)) o'
                         * (2048 - own_weight b) <= 255 * 2048)
      by (destruct Wb as [-> | ->]; lia).
    pose proof (vresize_decided (own_weight b) (own_weight a) (item src i j)
                  (item src i o) _ Wb Wa ltac:(tauto) (Bi i j Hi Hj) Bo Hoth)
      as D.
    cbv zeta in D. destruct D as [D1 D2]. exact D2.
Qed.

Lemma weights_half (n : Z) :
  0 < n ->
  cv2.cvRound_frac ((2 * n - n) * cv2.INTER_RESIZE_COEF_SCALE) (2 * n) = 1024
  /\ cv2.cvRound_frac (n * cv2.INTER_RESIZE_COEF_SCALE) (2 * n) = 1024.
Proof.
  intros Hn. change cv2.INTER_RESIZE_COEF_SCALE with 2048. split.
  - replace ((2 * n - n) * 2048) with (1024 * (2 * n)) by ring.
    apply cvRound_frac_exact. lia.
  - replace (n * 2048) with (1024 * (2 * n)) by ring.
    apply cvRound_frac_exact. lia.
Qed.

Lemma x_tap_down (n j : Z) :
  0 <= j < n -> cv2.x_tap (4 * n) n j = (4 * j + 1, 1024, 1024).
Proof.
  intros Hj. unfold cv2.x_tap. rewrite src_coord_down by lia.
  destruct (Z.ltb_spec (4 * j + 1) 0); [lia|].
  destruct (Z.geb_spec (4 * j + 1) (4 * n - 1)); [lia|].
  now destruct (weights_half n ltac:(lia)) as [-> ->].
Qed.

Lemma y_tap_down (n i : Z) :
  0 < n -> cv2.y_tap (4 * n) n i = (4 * i + 1, 1024, 1024).
Proof.
  intros Hn. unfold cv2.y_tap. rewrite src_coord_down by lia.
  now destruct (weights_half n ltac:(lia)) as [-> ->].
Qed.

(** Downsampling by 4 averages the four central samples of each 4x4
    block; when they agree on 0 or on 255 the average is that value. *)
Lemma downsample_block (src : ndarray) (h w i j c : Z) :
  0 <= i < h -> 0 <= j < w -> is_binary c ->
  item src (4 * i + 1) (4 * j + 1) = c ->
  item src (4 * i + 1) (4 * j + 2) = c ->
  item src (4 * i + 2) (4 * j + 1) = c ->
  item src (4 * i + 2) (4 * j + 2) = c ->
  cv2.resize_linear_at src (4 * w) (4 * h) w h i j = c.
Proof.
  intros Hi Hj Hc E11 E12 E21 E22.
  unfold cv2.resize_linear_at. rewrite y_tap_down by lia.
  rewrite !clip_inside by lia.
  unfold cv2.hresize. rewrite x_tap_down by lia.
  destruct (Z.geb_spec (4 * j + 1 + 1) (4 * w)); [lia|].
  replace (4 * i + 1 + 1) with (4 * i + 2) by lia.
  replace (4 * j + 1 + 1) with (4 * j + 2) by lia.
  rewrite E11, E12, E21, E22.
  destruct Hc as [-> | ->]; reflexivity.
Qed.

(** The supersampled mask of step 3, read block by block: away from the
    block corners it is the initial mask with 0 and 255 exchanged. *)
Lemma supersampled_block (im : PILImage) (w h : nat) (i j a b : Z) :
  Image.valid im = true -> Image.size im = (w, h) ->
  0 <= i < Z.of_nat h -> 0 <= j < Z.of_nat w ->
  0 <= a < 4 -> 0 <= b < 4 -> block_corner a b = false ->
  item (supersampled_mask im) (4 * i + a) (4 * j + b)
  = 255 - item (binarize (alpha_plane im)) i j.
Proof.
  intros V S Hi Hj Ha Hb Hc.
  destruct (valid_size_pos im w h V S) as [Hw Hh].
  pose proof (binarize_rectangular h w _ (alpha_plane_rectangular im w h V S))
    as R.
  unfold supersampled_mask, supersampled_mask_at, SUPERSAMPLE_FACTOR.
  rewrite S.
  rewrite (resize_plane_linear h w) by (auto; lia).
  rewrite binarize_tabulate, item_tabulate by lia.
  rewrite !Z2Nat.id by lia.
  rewrite !Nat2Z.inj_mul. change (Z.of_nat 4) with 4.
  rewrite (Z.mul_comm (Z.of_nat w) 4), (Z.mul_comm (Z.of_nat h) 4).
  apply (upsample_block _ h w); auto using binarize_binary.
Qed.

(** The whole round trip returns the initial mask. *)
Lemma final_mask_is_initial (im : PILImage) :
  Image.valid im = true ->
  final_mask_of im = binarize (alpha_plane im).
Proof.
  intros V.
  destruct (Image.size im) as [w h] eqn:S.
  destruct (valid_size_pos im w h V S) as [Hw Hh].
  pose proof (binarize_rectangular h w _ (alpha_plane_rectangular im w h V S))
    as R.
  pose proof (supersampled_rectangular SUPERSAMPLE_FACTOR im w h S) as Rl.
  fold (supersampled_mask im) in Rl.
  unfold final_mask_of, final_mask_at. rewrite S.
  fold (supersampled_mask im).
  assert (Hsh : (0 < h * SUPERSAMPLE_FACTOR)%nat)
    by (unfold SUPERSAMPLE_FACTOR; lia).
  rewrite (resize_plane_linear _ _ _ w h Hsh Rl)
    by (unfold SUPERSAMPLE_FACTOR; lia).
  rewrite binarize_tabulate.
  rewrite (rectangular_tabulate h w _ R) at 1.
  apply tabulate_ext. intros y x Hy Hx.
  unfold SUPERSAMPLE_FACTOR.
  rewrite !Nat2Z.inj_mul. change (Z.of_nat 4) with 4.
  rewrite (Z.mul_comm (Z.of_nat w) 4), (Z.mul_comm (Z.of_nat h) 4).
  pose proof (binarize_binary (alpha_plane im)) as B.
  pose proof (all_samples_item is_binary h w _ (Z.of_nat y) (Z.of_nat x) R B
                ltac:(lia) ltac:(lia)) as Bv.
  assert (Bc : is_binary (255 - item (binarize (alpha_plane im))
                                 (Z.of_nat y) (Z.of_nat x)))
    by (destruct Bv as [-> | ->]; [right | left]; reflexivity).
  assert (Hzy : 0 <= Z.of_nat y < Z.of_nat h) by lia.
  assert (Hzx : 0 <= Z.of_nat x < Z.of_nat w) by lia.
  rewrite (downsample_block (supersampled_mask im) _ _ _ _ _ Hzy Hzx Bc).
  - rewrite (rule_swaps _ Bc). lia.
  - apply (supersampled_block im w h); auto; lia.
  - apply (supersampled_block im w h); auto; lia.
  - apply (supersampled_block im w h); auto; lia.
  - apply (supersampled_block im w h); auto; lia.
Qed.

(* ================================================================== *)
(** ** Properties of [create_mask]                                     *)
(* ================================================================== *)

Lemma gradient_edges_contract : cv2.Canny_contract cv2.gradient_edges.
Proof.
  intros h w image lo hi Hh Hw R. unfold cv2.gradient_edges.
  rewrite (rectangular_nrows h w image R), (rectangular_ncols h w image Hh R).
  destruct h, w; try lia. simpl. eexists. split; [reflexivity|].
  apply tabulate_rectangular.
Qed.

Lemma binarize_uniform (c : Z) (a : ndarray) :
  all_samples (fun v => v = c) a ->
  all_samples (fun v => v = if c >? 127 then 0 else 255) (binarize a).
Proof.
  intros A. rewrite binarize_map. unfold all_samples in *.
  rewrite Forall_forall in A.
  apply Forall_forall. intros r Hr.
  apply in_map_iff in Hr as (r0 & <- & Hr0).
  specialize (A _ Hr0). rewrite Forall_forall in A.
  apply Forall_forall. intros v Hv.
  apply in_map_iff in Hv as (v0 & <- & Hv0).
  now rewrite (A _ Hv0).
Qed.

Lemma map_map_fixed (f : Z -> Z) (P : Z -> Prop) (a : ndarray) :
  (forall v, P v -> f v = v) -> all_samples P a -> map (map f) a = a.
Proof.
  intros Hf A. unfold all_samples in A.
  induction A as [|r a Hr _ IH]; simpl; [reflexivity|].
  f_equal; [|exact IH].
  induction Hr as [|v r Hv _ IHr]; simpl; [reflexivity|].
  now rewrite Hf, IHr.
Qed.

(** C1. For every decodable input image, [create_mask] returns a mask,
    and every pixel of that mask is exactly 0 or 255. *)
Theorem create_mask_binary (Canny : cv2.CannyT) (self : MaskGenerator)
    (path : string) (w : World) :
  cv2.Canny_contract Canny ->
  decodable w path ->
  exists mask,
    snd (create_mask Canny self path w) = inr mask
    /\ mode mask = L
    /\ Forall (all_samples is_binary) (bands mask).
Proof.
  intros HC [im D]. rewrite (create_mask_run Canny HC self path w im D).
  eexists. split; [reflexivity|]. split; [reflexivity|].
  constructor; [|constructor].
  unfold final_mask_of, final_mask_at.
  destruct (Image.size im). apply binarize_binary.
Qed.

(** C2. For every decodable input image the returned mask has exactly
    the width and height of the decoded source image; this holds for
    every positive supersample factor, and in particular for the factor
    4 that [create_mask] uses. *)
Theorem create_mask_dimensions (Canny : cv2.CannyT) (self : MaskGenerator)
    (path : string) (w : World) (im : PILImage) :
  cv2.Canny_contract Canny ->
  decodes_to w path im ->
  (exists mask,
      snd (create_mask Canny self path w) = inr mask
      /\ Image.size mask = Image.size im)
  /\ (forall factor, (0 < factor)%nat ->
      exists mask,
        snd (create_mask_at factor Canny self path w) = inr mask
        /\ Image.size mask = Image.size im).
Proof.
  intros HC D.
  assert (G : forall factor, (0 < factor)%nat ->
            exists mask,
              snd (create_mask_at factor Canny self path w) = inr mask
              /\ Image.size mask = Image.size im).
  { intros factor Hfac.
    rewrite (create_mask_at_run Canny HC factor self path w im Hfac D).
    eexists. split; [reflexivity|].
    destruct D as [_ V].
    destruct (Image.size im) as [width height] eqn:S.
    destruct (valid_size_pos im width height V S) as [Hw Hh].
    pose proof (final_mask_rectangular factor im width height S) as R.
    unfold Image.size, Image.fromarray. cbn [bands hd].
    now rewrite (rectangular_ncols _ _ _ Hh R), (rectangular_nrows _ _ _ R). }
  split; [|exact G].
  apply (G SUPERSAMPLE_FACTOR). unfold SUPERSAMPLE_FACTOR. lia.
Qed.

(** C3. Edge detection (Canny, thresholds 100/200) and the 3x3 dilation
    have no effect on what [create_mask] does: on every input, decodable
    or not, the pipeline without these two steps ends in the same world,
    with the same log and the same result, hence a pixel-identical
    mask. *)
Theorem edge_steps_have_no_effect (Canny : cv2.CannyT) (self : MaskGenerator)
    (path : string) (w : World) :
  cv2.Canny_contract Canny ->
  create_mask Canny self path w = create_mask_without_edges self path w.
Proof.
  intros HC.
  assert (Dec : decodable w path \/ ~ decodable w path).
  { unfold decodable, decodes_to.
    destruct (files w path) as [[| |im]|] eqn:Hf;
      try (right; intros (im' & E & _); discriminate).
    destruct (Image.valid im) eqn:V.
    - left. now exists im.
    - right. intros (im' & E & V'). injection E as <-. congruence. }
  destruct Dec as [[im D] | Hn].
  - now rewrite (create_mask_run Canny HC self path w im D),
      (create_mask_without_edges_run self path w im D).
  - destruct (create_mask_undecodable Canny self path w Hn)
      as (e & _ & -> & ->).
    reflexivity.
Qed.

(** What [create_mask] returns on a decodable image: the initial mask,
    at the size of the image. *)
Lemma create_mask_result (Canny : cv2.CannyT) (self : MaskGenerator)
    (path : string) (w : World) (im : PILImage) :
  cv2.Canny_contract Canny ->
  decodes_to w path im ->
  create_mask Canny self path w
  = (w, [EvNow; EvOpen path],
     inr (Image.fromarray (binarize (alpha_plane im)))).
Proof.
  intros HC D. rewrite (create_mask_run Canny HC self path w im D).
  destruct D as [_ V]. now rewrite (final_mask_is_initial im V).
Qed.

Lemma size_initial_mask (im : PILImage) :
  Image.valid im = true ->
  Image.size (Image.fromarray (binarize (alpha_plane im))) = Image.size im.
Proof.
  intros V. destruct (Image.size im) as [width height] eqn:S.
  destruct (valid_size_pos im width height V S) as [Hw Hh].
  pose proof (binarize_rectangular _ _ _
                (alpha_plane_rectangular im width height V S)) as R.
  unfold Image.size, Image.fromarray. cbn [bands hd].
  now rewrite (rectangular_ncols _ _ _ Hh R), (rectangular_nrows _ _ _ R).
Qed.

(** C4. An image whose alpha is 255 at every pixel gives a mask that is
    entirely 0.  An RGB image, which has no alpha band, is converted with
    alpha 255 at every pixel that does not have the transparent colour
    the image carries; when no pixel has it (as when the image carries
    none), the mask is all 0 too. *)
Theorem opaque_input_all_foreground (Canny : cv2.CannyT)
    (self : MaskGenerator) (path : string) (w : World) (im : PILImage) :
  cv2.Canny_contract Canny ->
  decodes_to w path im ->
  all_samples (fun v => v = 255) (alpha_plane im)
  \/ (mode im = RGB /\ no_transparent_pixel im) ->
  all_samples (fun v => v = 255) (alpha_plane im)
  /\ exists mask,
       snd (create_mask Canny self path w) = inr mask
       /\ Image.size mask = Image.size im
       /\ all_samples (fun v => v = 0) (np.array mask).
Proof.
  intros HC D Ha.
  assert (A : all_samples (fun v => v = 255) (alpha_plane im)).
  { destruct Ha as [A | [Hm Hk]]; [exact A|].
    apply alpha_plane_no_alpha; [now left | exact Hk]. }
  split; [exact A|].
  rewrite (create_mask_result Canny self path w im HC D).
  eexists. split; [reflexivity|]. split.
  - apply size_initial_mask, D.
  - exact (binarize_uniform 255 _ A).
Qed.

(** C5. An image whose alpha is 0 at every pixel gives a mask that is
    entirely 255. *)
Theorem transparent_input_all_background (Canny : cv2.CannyT)
    (self : MaskGenerator) (path : string) (w : World) (im : PILImage) :
  cv2.Canny_contract Canny ->
  decodes_to w path im ->
  all_samples (fun v => v = 0) (alpha_plane im) ->
  exists mask,
    snd (create_mask Canny self path w) = inr mask
    /\ Image.size mask = Image.size im
    /\ all_samples (fun v => v = 255) (np.array mask).
Proof.
  intros HC D A.
  rewrite (create_mask_result Canny self path w im HC D).
  eexists. split; [reflexivity|]. split.
  - apply size_initial_mask, D.
  - exact (binarize_uniform 0 _ A).
Qed.

(** C6. The threshold is strict: in the returned mask a pixel is 0
    exactly when its alpha is greater than 127, so alpha 127 gives 255
    and alpha 128 gives 0; an image of uniform alpha 127 gives an all-255
    mask and one of uniform alpha 128 an all-0 mask. *)
Theorem threshold_boundary (Canny : cv2.CannyT)
    (self : MaskGenerator) (path : string) (w : World) (im : PILImage) :
  cv2.Canny_contract Canny ->
  decodes_to w path im ->
  exists mask,
    snd (create_mask Canny self path w) = inr mask
    /\ Image.size mask = Image.size im
    /\ (forall y x,
          0 <= y < Z.of_nat (snd (Image.size im)) ->
          0 <= x < Z.of_nat (fst (Image.size im)) ->
          (item (np.array mask) y x = 0 <-> item (alpha_plane im) y x > 127)
          /\ (item (np.array mask) y x = 255
              <-> item (alpha_plane im) y x <= 127)
          /\ (item (alpha_plane im) y x = 127 ->
              item (np.array mask) y x = 255)
          /\ (item (alpha_plane im) y x = 128 ->
              item (np.array mask) y x = 0))
    /\ (all_samples (fun v => v = 127) (alpha_plane im) ->
        all_samples (fun v => v = 255) (np.array mask))
    /\ (all_samples (fun v => v = 128) (alpha_plane im) ->
        all_samples (fun v => v = 0) (np.array mask)).
Proof.
  intros HC D.
  rewrite (create_mask_result Canny self path w im HC D).
  eexists. split; [reflexivity|].
  destruct D as [_ V].
  split; [now apply size_initial_mask|].
  cbn [np.array Image.fromarray bands hd].
  split; [|split].
  - intros y x Hy Hx.
    destruct (Image.size im) as [width height] eqn:S. cbn [fst snd] in *.
    rewrite (item_binarize height width _ y x
               (alpha_plane_rectangular im width height V S) Hy Hx).
    destruct (Z.gtb_spec (item (alpha_plane im) y x) 127);
      repeat split; intros; try lia; try discriminate.
  - exact (binarize_uniform 127 _).
  - exact (binarize_uniform 128 _).
Qed.

(** C7. On a grid whose values are all 0 or 255, applying the
    binarization rule twice gives back the grid. *)
Theorem binarize_twice (g : ndarray) :
  all_samples is_binary g -> binarize (binarize g) = g.
Proof.
  intros B. rewrite !binarize_map, map_map.
  rewrite (map_ext _ (map (fun v => if (if v >? 127 then 0 else 255) >? 127
                                    then 0 else 255)))
    by (intros r; apply map_map).
  apply (map_map_fixed _ is_binary); [|exact B].
  now intros v [-> | ->].
Qed.

(** The downsampled plane of step 6, before its threshold: still the
    initial mask with 0 and 255 exchanged. *)
Lemma downsampled_item (im : PILImage) (w h : nat) (y x : Z) :
  Image.valid im = true -> Image.size im = (w, h) ->
  0 <= y < Z.of_nat h -> 0 <= x < Z.of_nat w ->
  item (cv2.resize_plane (supersampled_mask im) w h) y x
  = 255 - item (binarize (alpha_plane im)) y x.
Proof.
  intros V S Hy Hx.
  destruct (valid_size_pos im w h V S) as [Hw Hh].
  pose proof (binarize_rectangular h w _ (alpha_plane_rectangular im w h V S))
    as R.
  pose proof (supersampled_rectangular SUPERSAMPLE_FACTOR im w h S) as Rl.
  fold (supersampled_mask im) in Rl.
  assert (Hsh : (0 < h * SUPERSAMPLE_FACTOR)%nat)
    by (unfold SUPERSAMPLE_FACTOR; lia).
  rewrite (resize_plane_linear _ _ _ w h Hsh Rl)
    by (unfold SUPERSAMPLE_FACTOR; lia).
  rewrite item_tabulate by lia. rewrite !Z2Nat.id by lia.
  unfold SUPERSAMPLE_FACTOR.
  rewrite !Nat2Z.inj_mul. change (Z.of_nat 4) with 4.
  rewrite (Z.mul_comm (Z.of_nat w) 4), (Z.mul_comm (Z.of_nat h) 4).
  pose proof (all_samples_item is_binary h w _ y x R
                (binarize_binary (alpha_plane im)) Hy Hx) as Bv.
  assert (Bc : is_binary (255 - item (binarize (alpha_plane im)) y x))
    by (destruct Bv as [-> | ->]; [right | left]; reflexivity).
  apply (downsample_block (supersampled_mask im) _ _ _ _ _ Hy Hx Bc);
    apply (supersampled_block im w h); auto; lia.
Qed.

(** C8. One application of the rule to a 0/255 grid exchanges 0 and 255.
    Inside [create_mask] the supersampled mask of step 3 is therefore the
    initial mask with the two values exchanged (at every sample of a 4x4
    block but its corners), so that 255 marks the product there; the
    threshold after the downsampling exchanges them once more, and the
    returned mask has 0 on the product and 255 on the background. *)
Theorem polarity_double_inversion (Canny : cv2.CannyT)
    (self : MaskGenerator) (path : string) (w : World) (im : PILImage)
    (width height : nat) :
  cv2.Canny_contract Canny ->
  decodes_to w path im ->
  Image.size im = (width, height) ->
  (forall g, all_samples is_binary g ->
             binarize g = map (map (fun v => 255 - v)) g)
  /\ (forall i j a b,
        0 <= i < Z.of_nat height -> 0 <= j < Z.of_nat width ->
        0 <= a < 4 -> 0 <= b < 4 -> block_corner a b = false ->
        item (supersampled_mask im) (4 * i + a) (4 * j + b)
        = 255 - item (binarize (alpha_plane im)) i j
        /\ (item (alpha_plane im) i j > 127 ->
            item (supersampled_mask im) (4 * i + a) (4 * j + b) = 255))
  /\ exists mask,
       snd (create_mask Canny self path w) = inr mask
       /\ np.array mask
          = binarize (cv2.resize_plane (supersampled_mask im) width height)
       /\ forall i j,
            0 <= i < Z.of_nat height -> 0 <= j < Z.of_nat width ->
            item (cv2.resize_plane (supersampled_mask im) width height) i j
            = 255 - item (binarize (alpha_plane im)) i j
            /\ item (np.array mask) i j = item (binarize (alpha_plane im)) i j
            /\ (item (np.array mask) i j = 0
                <-> item (alpha_plane im) i j > 127)
            /\ (item (np.array mask) i j = 255
                <-> item (alpha_plane im) i j <= 127).
Proof.
  intros HC D S.
  pose proof D as [_ V].
  pose proof (alpha_plane_rectangular im width height V S) as Ra.
  split; [|split].
  - intros g B. rewrite binarize_map. unfold all_samples in B.
    induction B as [|r g Hr _ IH]; simpl; [reflexivity|].
    f_equal; [|exact IH].
    induction Hr as [|v r Hv _ IHr]; simpl; [reflexivity|].
    now rewrite (rule_swaps v Hv), IHr.
  - intros i j a b Hi Hj Ha Hb Hc.
    rewrite (supersampled_block im width height i j a b V S Hi Hj Ha Hb Hc).
    split; [reflexivity|].
    rewrite (item_binarize height width _ i j Ra Hi Hj).
    intros G. destruct (Z.gtb_spec (item (alpha_plane im) i j) 127); lia.
  - rewrite (create_mask_run Canny HC self path w im D).
    eexists. split; [reflexivity|].
    cbn [np.array Image.fromarray bands hd].
    split.
    + unfold final_mask_of, final_mask_at. now rewrite S.
    + intros i j Hi Hj.
      rewrite (final_mask_is_initial im V).
      rewrite (downsampled_item im width height i j V S Hi Hj).
      rewrite (item_binarize height width _ i j Ra Hi Hj).
      destruct (Z.gtb_spec (item (alpha_plane im) i j) 127);
        repeat split; intros; try lia; try discriminate.
Qed.

(** C9. When the file at the path does not decode, the call ends with a
    decoding exception: the file was opened once, no mask is returned
    and the world is as before.  When it decodes, a mask is returned. *)
Theorem decode_failure_is_fatal (Canny : cv2.CannyT)
    (self : MaskGenerator) (path : string) (w : World) :
  cv2.Canny_contract Canny ->
  (~ decodable w path ->
   exists e, decode_error e
     /\ create_mask Canny self path w = (w, [EvNow; EvOpen path], inl e))
  /\ (decodable w path ->
      exists mask,
        create_mask Canny self path w = (w, [EvNow; EvOpen path], inr mask)).
Proof.
  intros HC. split.
  - intros Hn.
    destruct (create_mask_undecodable Canny self path w Hn) as (e & He & E & _).
    now exists e.
  - intros [im D]. eexists. exact (create_mask_run Canny HC self path w im D).
Qed.

(** C10. The mask depends only on the size and the alpha plane of the
    decoded image: two calls, in any two worlds (other clock, other
    files, other earlier calls), on any two generator objects and paths,
    whose images agree in size and alpha return the same mask, whatever
    the colour bands hold; and neither call changes its world. *)
Theorem mask_depends_on_alpha_only (Canny : cv2.CannyT)
    (self1 self2 : MaskGenerator) (path1 path2 : string)
    (w1 w2 : World) (im1 im2 : PILImage) :
  cv2.Canny_contract Canny ->
  decodes_to w1 path1 im1 ->
  decodes_to w2 path2 im2 ->
  Image.size im1 = Image.size im2 ->
  alpha_plane im1 = alpha_plane im2 ->
  exists mask,
    snd (create_mask Canny self1 path1 w1) = inr mask
    /\ snd (create_mask Canny self2 path2 w2) = inr mask
    /\ fst (fst (create_mask Canny self1 path1 w1)) = w1
    /\ fst (fst (create_mask Canny self2 path2 w2)) = w2.
Proof.
  intros HC D1 D2 Es Ea.
  rewrite (create_mask_run Canny HC self1 path1 w1 im1 D1).
  rewrite (create_mask_run Canny HC self2 path2 w2 im2 D2).
  eexists. split; [reflexivity|]. split; [|split; reflexivity].
  cbn [snd]. do 2 f_equal.
  unfold final_mask_of, final_mask_at, supersampled_mask_at.
  now rewrite Es, Ea.
Qed.

(* ================================================================== *)
(** ** The properties at concrete inputs                               *)
(* ================================================================== *)

Example init_debug_creates_directory :
  MaskGenerator_init "pkg/src/utils.py" true sample_world
  = (mkWorld "20240101_1200" (files sample_world)
       [ "pkg/data/output/debug/mask_analysis"; "pkg/data/output/debug";
         "pkg/data/output"; "pkg/data"; "pkg" ]%string,
     [EvMkdir "pkg/data/output/debug/mask_analysis"],
     inr debug_generator)
  /\ MaskGenerator_init "pkg/src/utils.py" false sample_world
     = (sample_world, [], inr sample_generator).
Proof. split; reflexivity. Qed.

(** The transparent colour of a file becomes alpha 0: compared by the
    low 8 bits of its samples, on gray and on colour pictures; a picture
    with an alpha band keeps that band. *)
Example convert_transparent_colour :
  alpha_plane (mkImageInfo L [[[5; 6]; [7; 5]]] (Some (TransparentGray 5)))
  = [[0; 255]; [255; 0]]
  /\ alpha_plane (mkImageInfo L [[[5; 6]; [7; 5]]] (Some (TransparentGray 261)))
     = [[0; 255]; [255; 0]]
  /\ alpha_plane (mkImage L [[[5; 6]; [7; 5]]]) = [[255; 255]; [255; 255]]
  /\ alpha_plane sample_keyed = [[0; 255]; [255; 255]]
  /\ alpha_plane sample_rgb = [[255; 255]; [255; 255]]
  /\ alpha_plane sample_rgba = [[255; 127; 128]; [0; 200; 3]]
  /\ transparency (Image.convert_RGBA sample_keyed) = None.
Proof. repeat split. Qed.

Example create_mask_product :
  create_mask cv2.gradient_edges sample_generator "product.png" sample_world
  = (sample_world, [EvNow; EvOpen "product.png"],
     inr (mkImage L [[[0; 255; 0]; [255; 0; 255]]])).
Proof. vm_compute. reflexivity. Qed.

Example supersampled_product :
  supersampled_mask sample_rgba
  = [ [255; 255; 255; 255; 0; 0; 0; 0; 255; 255; 255; 255];
      [255; 255; 255; 255; 0; 0; 0; 0; 255; 255; 255; 255];
      [255; 255; 255; 255; 0; 0; 0; 0; 255; 255; 255; 255];
      [255; 255; 255; 255; 0; 0; 0; 0; 255; 255; 255; 255];
      [0; 0; 0; 0; 255; 255; 255; 255; 0; 0; 0; 0];
      [0; 0; 0; 0; 255; 255; 255; 255; 0; 0; 0; 0];
      [0; 0; 0; 0; 255; 255; 255; 255; 0; 0; 0; 0];
      [0; 0; 0; 0; 255; 255; 255; 255; 0; 0; 0; 0] ].
Proof. vm_compute. reflexivity. Qed.

(** A lone background pixel: the corners of its block do not follow it,
    the rest of the block does. *)
Example supersampled_lone_pixel :
  binarize (cv2.resize_plane [[0; 0; 0]; [0; 255; 0]; [0; 0; 0]] 12 12)
  = [ [255; 255; 255; 255; 255; 255; 255; 255; 255; 255; 255; 255];
      [255; 255; 255; 255; 255; 255; 255; 255; 255; 255; 255; 255];
      [255; 255; 255; 255; 255; 255; 255; 255; 255; 255; 255; 255];
      [255; 255; 255; 255; 255; 255; 255; 255; 255; 255; 255; 255];
      [255; 255; 255; 255; 255; 0; 0; 255; 255; 255; 255; 255];
      [255; 255; 255; 255; 0; 0; 0; 0; 255; 255; 255; 255];
      [255; 255; 255; 255; 0; 0; 0; 0; 255; 255; 255; 255];
      [255; 255; 255; 255; 255; 0; 0; 255; 255; 255; 255; 255];
      [255; 255; 255; 255; 255; 255; 255; 255; 255; 255; 255; 255];
      [255; 255; 255; 255; 255; 255; 255; 255; 255; 255; 255; 255];
      [255; 255; 255; 255; 255; 255; 255; 255; 255; 255; 255; 255];
      [255; 255; 255; 255; 255; 255; 255; 255; 255; 255; 255; 255] ].
Proof. vm_compute. reflexivity. Qed.

Example dilate_point :
  cv2.dilate [[0; 0; 0; 0]; [0; 255; 0; 0]; [0; 0; 0; 0]; [0; 0; 0; 0]]
    (np.ones 3 3) 1
  = inr [[255; 255; 255; 0]; [255; 255; 255; 0]; [255; 255; 255; 0];
         [0; 0; 0; 0]].
Proof. vm_compute. reflexivity. Qed.

Example resize_step_edge :
  cv2.resize [[0; 255]] (8%nat, 1%nat)
  = inr [[0; 0; 32; 96; 159; 223; 255; 255]].
Proof. vm_compute. reflexivity. Qed.

Example resize_empty_target :
  cv2.resize [[0; 255]] (0%nat, 0%nat) = inl cv2_error.
Proof. reflexivity. Qed.

Example create_mask_errors :
  snd (create_mask cv2.gradient_edges sample_generator "notes.txt" sample_world)
  = inl UnidentifiedImageError
  /\ snd (create_mask cv2.gradient_edges sample_generator "cut.png" sample_world)
     = inl OSError
  /\ snd (create_mask cv2.gradient_edges sample_generator "none.png" sample_world)
     = inl FileNotFoundError.
Proof. repeat split. Qed.

Lemma product_decodes : decodes_to sample_world "product.png" sample_rgba.
Proof. split; reflexivity. Qed.

Lemma create_mask_binary_witness :
  exists mask,
    snd (create_mask cv2.gradient_edges sample_generator "product.png"
           sample_world) = inr mask
    /\ mode mask = L
    /\ Forall (all_samples is_binary) (bands mask).
Proof.
  apply (create_mask_binary cv2.gradient_edges sample_generator "product.png"
           sample_world gradient_edges_contract).
  exists sample_rgba. split; reflexivity.
Defined.

Lemma create_mask_dimensions_witness :
  (exists mask,
      snd (create_mask cv2.gradient_edges sample_generator "product.png"
             sample_world) = inr mask
      /\ Image.size mask = (3%nat, 2%nat))
  /\ (forall factor, (0 < factor)%nat ->
      exists mask,
        snd (create_mask_at factor cv2.gradient_edges sample_generator
               "product.png" sample_world) = inr mask
        /\ Image.size mask = (3%nat, 2%nat)).
Proof.
  apply (create_mask_dimensions cv2.gradient_edges sample_generator
           "product.png" sample_world sample_rgba gradient_edges_contract).
  split; reflexivity.
Defined.

Lemma edge_steps_have_no_effect_witness :
  create_mask cv2.gradient_edges sample_generator "product.png" sample_world
  = create_mask_without_edges sample_generator "product.png" sample_world.
Proof.
  apply (edge_steps_have_no_effect cv2.gradient_edges sample_generator
           "product.png" sample_world).
  exact gradient_edges_contract.
Defined.

Lemma opaque_input_all_foreground_witness :
  all_samples (fun v => v = 255) (alpha_plane sample_rgb)
  /\ exists mask,
       snd (create_mask cv2.gradient_edges sample_generator "photo.jpg"
              sample_world) = inr mask
       /\ Image.size mask = (2%nat, 2%nat)
       /\ all_samples (fun v => v = 0) (np.array mask).
Proof.
  apply (opaque_input_all_foreground cv2.gradient_edges sample_generator
           "photo.jpg" sample_world sample_rgb gradient_edges_contract).
  - split; reflexivity.
  - right. split; [reflexivity | exact I].
Defined.

Lemma transparent_input_all_background_witness :
  exists mask,
    snd (create_mask cv2.gradient_edges sample_generator "clear.png"
           sample_world) = inr mask
    /\ Image.size mask = (3%nat, 2%nat)
    /\ all_samples (fun v => v = 255) (np.array mask).
Proof.
  apply (transparent_input_all_background cv2.gradient_edges sample_generator
           "clear.png" sample_world (uniform_rgba 0) gradient_edges_contract).
  - split; reflexivity.
  - repeat constructor.
Defined.

Lemma threshold_boundary_witness :
  exists mask,
    snd (create_mask cv2.gradient_edges sample_generator "a127.png"
           sample_world) = inr mask
    /\ Image.size mask = (3%nat, 2%nat)
    /\ (forall y x,
          0 <= y < 2 -> 0 <= x < 3 ->
          (item (np.array mask) y x = 0
           <-> item (alpha_plane (uniform_rgba 127)) y x > 127)
          /\ (item (np.array mask) y x = 255
              <-> item (alpha_plane (uniform_rgba 127)) y x <= 127)
          /\ (item (alpha_plane (uniform_rgba 127)) y x = 127 ->
              item (np.array mask) y x = 255)
          /\ (item (alpha_plane (uniform_rgba 127)) y x = 128 ->
              item (np.array mask) y x = 0))
    /\ (all_samples (fun v => v = 127) (alpha_plane (uniform_rgba 127)) ->
        all_samples (fun v => v = 255) (np.array mask))
    /\ (all_samples (fun v => v = 128) (alpha_plane (uniform_rgba 127)) ->
        all_samples (fun v => v = 0) (np.array mask)).
Proof.
  apply (threshold_boundary cv2.gradient_edges sample_generator
           "a127.png" sample_world (uniform_rgba 127) gradient_edges_contract).
  split; reflexivity.
Defined.

Lemma binarize_twice_witness :
  binarize (binarize [[0; 255; 255]; [255; 0; 0]]) = [[0; 255; 255]; [255; 0; 0]].
Proof.
  apply (binarize_twice [[0; 255; 255]; [255; 0; 0]]).
  unfold all_samples, is_binary.
  repeat (apply Forall_cons; [auto|]); apply Forall_nil.
Defined.

Lemma polarity_double_inversion_witness :
  (forall g, all_samples is_binary g ->
             binarize g = map (map (fun v => 255 - v)) g)
  /\ (forall i j a b,
        0 <= i < 2 -> 0 <= j < 3 ->
        0 <= a < 4 -> 0 <= b < 4 -> block_corner a b = false ->
        item (supersampled_mask sample_rgba) (4 * i + a) (4 * j + b)
        = 255 - item (binarize (alpha_plane sample_rgba)) i j
        /\ (item (alpha_plane sample_rgba) i j > 127 ->
            item (supersampled_mask sample_rgba) (4 * i + a) (4 * j + b)
            = 255))
  /\ exists mask,
       snd (create_mask cv2.gradient_edges sample_generator "product.png"
              sample_world) = inr mask
       /\ np.array mask
          = binarize (cv2.resize_plane (supersampled_mask sample_rgba) 3 2)
       /\ forall i j,
            0 <= i < 2 -> 0 <= j < 3 ->
            item (cv2.resize_plane (supersampled_mask sample_rgba) 3 2) i j
            = 255 - item (binarize (alpha_plane sample_rgba)) i j
            /\ item (np.array mask) i j
               = item (binarize (alpha_plane sample_rgba)) i j
            /\ (item (np.array mask) i j = 0
                <-> item (alpha_plane sample_rgba) i j > 127)
            /\ (item (np.array mask) i j = 255
                <-> item (alpha_plane sample_rgba) i j <= 127).
Proof.
  apply (polarity_double_inversion cv2.gradient_edges sample_generator
           "product.png" sample_world sample_rgba 3 2
           gradient_edges_contract).
  - split; reflexivity.
  - reflexivity.
Defined.

Lemma decode_failure_is_fatal_witness :
  (~ decodable sample_world "cut.png" ->
   exists e, decode_error e
     /\ create_mask cv2.gradient_edges sample_generator "cut.png" sample_world
        = (sample_world, [EvNow; EvOpen "cut.png"], inl e))
  /\ (decodable sample_world "cut.png" ->
      exists mask,
        create_mask cv2.gradient_edges sample_generator "cut.png" sample_world
        = (sample_world, [EvNow; EvOpen "cut.png"], inr mask)).
Proof.
  apply (decode_failure_is_fatal cv2.gradient_edges sample_generator
           "cut.png" sample_world).
  exact gradient_edges_contract.
Defined.

Lemma mask_depends_on_alpha_only_witness :
  exists mask,
    snd (create_mask cv2.gradient_edges sample_generator "product.png"
           sample_world) = inr mask
    /\ snd (create_mask cv2.gradient_edges debug_generator "recoloured.png"
              later_world) = inr mask
    /\ fst (fst (create_mask cv2.gradient_edges sample_generator "product.png"
                   sample_world)) = sample_world
    /\ fst (fst (create_mask cv2.gradient_edges debug_generator
                   "recoloured.png" later_world)) = later_world.
Proof.
  apply (mask_depends_on_alpha_only cv2.gradient_edges
           sample_generator debug_generator "product.png" "recoloured.png"
           sample_world later_world sample_rgba sample_recoloured
           gradient_edges_contract).
  - split; reflexivity.
  - split; reflexivity.
  - reflexivity.
  - reflexivity.
Defined.

(** An RGB picture is not always treated as opaque: the picture has no
    alpha band, but the pixel that has the transparent colour of its
    file is converted to alpha 0 and becomes background in the mask. *)
Lemma rgb_transparent_colour_is_background :
  decodes_to keyed_world "keyed.png" sample_keyed
  /\ mode sample_keyed = RGB
  /\ alpha_plane sample_keyed = [[0; 255]; [255; 255]]
  /\ snd (create_mask cv2.gradient_edges sample_generator "keyed.png"
            keyed_world)
     = inr (Image.fromarray [[255; 0]; [0; 0]])
  /\ ~ (exists mask,
          snd (create_mask cv2.gradient_edges sample_generator "keyed.png"
                 keyed_world) = inr mask
          /\ all_samples (fun v => v = 0) (np.array mask)).
Proof.
  assert (R : snd (create_mask cv2.gradient_edges sample_generator
                     "keyed.png" keyed_world)
              = inr (Image.fromarray [[255; 0]; [0; 0]]))
    by (vm_compute; reflexivity).
  repeat split; try exact R.
  intros (mask & E & A). rewrite R in E. injection E as <-.
  cbn in A. inversion A as [|r l Hr _]. inversion Hr. discriminate.
Qed.

(** The supersampled mask is not the exchanged initial mask at every
    sample: around a lone opaque pixel the corners of its block keep the
    value 0 of the initial mask. *)
Lemma supersampled_corner_not_exchanged :
  Image.valid sample_lone = true
  /\ item (alpha_plane sample_lone) 1 1 = 255
  /\ item (binarize (alpha_plane sample_lone)) 1 1 = 0
  /\ item (supersampled_mask sample_lone) 4 4 = 0
  /\ ~ (forall i j a b,
          0 <= i < 3 -> 0 <= j < 3 -> 0 <= a < 4 -> 0 <= b < 4 ->
          item (supersampled_mask sample_lone) (4 * i + a) (4 * j + b)
          = 255 - item (binarize (alpha_plane sample_lone)) i j).
Proof.
  assert (E : item (supersampled_mask sample_lone) 4 4 = 0)
    by (vm_compute; reflexivity).
  repeat split; try exact E.
  intros H. specialize (H 1 1 0 0).
  change (4 * 1 + 0) with 4 in H. rewrite E in H.
  assert (255 - item (binarize (alpha_plane sample_lone)) 1 1 = 255)
    by (vm_compute; reflexivity).
  lia.
Qed.

(* ================================================================== *)
(** ** [_retry_with_backoff]                                           *)
(* ================================================================== *)

Section Retry.

Context {A : Type}.
Variable os_refuses : nat -> Z -> bool.
Variable func : nat -> pystr + A.
Variables max_retries initial_delay : Z.

(** Attempt [k] failed with a rate-limit message and the sleep after it
    was granted. *)
Let retried (k : nat) : Prop :=
  exists e, func k = inl e /\ rate_limited e = true
            /\ time_sleep (os_refuses k) (backoff_delay initial_delay k)
               = None.

(** What holds of a run that has reached attempt [a] with [n] attempts
    still to go. *)
Lemma retry_loop_spec (n a : nat) :
  Z.of_nat (a + n) = max_retries ->
  (0 < n)%nat ->
  (forall k, (k < a)%nat -> retried k) ->
  let r := retry_loop os_refuses func max_retries initial_delay (seq a n)
             (map (backoff_delay initial_delay) (seq 0 a)) a in
  retry_sleeps r
  = map (backoff_delay initial_delay) (seq 0 (length (retry_sleeps r)))
  /\ retry_calls r = S (length (retry_sleeps r))
  /\ Z.of_nat (retry_calls r) <= max_retries
  /\ (forall k, (S k < retry_calls r)%nat -> retried k)
  /\ match retry_outcome r with
     | Returned v => func (pred (retry_calls r)) = inr v
     | ReturnedNone => False
     | Reraised e =>
         func (pred (retry_calls r)) = inl e
         /\ (rate_limited e = false \/ Z.of_nat (retry_calls r) = max_retries)
     | SleepRaised err =>
         Z.of_nat (retry_calls r) < max_retries
         /\ time_sleep (os_refuses (pred (retry_calls r)))
              (backoff_delay initial_delay (pred (retry_calls r)))
            = Some err
         /\ exists e, func (pred (retry_calls r)) = inl e
                      /\ rate_limited e = true
     end.
Proof.
  revert a. induction n as [|n IH]; intros a Hlen Hn Hist; [lia|].
  cbn [seq retry_loop].
  assert (Hs : length (map (backoff_delay initial_delay) (seq 0 a)) = a)
    by now rewrite length_map, length_seq.
  assert (Hh : forall k, (S k < S a)%nat -> retried k)
    by (intros k Hk; apply Hist; lia).
  destruct (func a) as [e|v] eqn:Hf.
  - fold (rate_limited e).
    destruct (rate_limited e) eqn:Hr; cbn [andb].
    + destruct (Z.ltb_spec (Z.of_nat a) (max_retries - 1)) as [Hlt|Hge].
      * fold (backoff_delay initial_delay a).
        destruct (time_sleep (os_refuses a) (backoff_delay initial_delay a))
          as [err|] eqn:Hsl.
        -- cbn. rewrite Hs. repeat split; try lia; eauto.
        -- replace (map (backoff_delay initial_delay) (seq 0 a)
                    ++ [backoff_delay initial_delay a])
             with (map (backoff_delay initial_delay) (seq 0 (S a)))
             by (rewrite seq_S, map_app; reflexivity).
           apply IH; try lia.
           intros k Hk. destruct (Nat.eq_dec k a) as [->|].
           ++ exists e. auto.
           ++ apply Hist. lia.
      * cbn. rewrite Hs.
        assert (Z.of_nat (S a) = max_retries) by lia.
        repeat split; try lia; eauto.
    + cbn. rewrite Hs. repeat split; try lia; eauto.
  - cbn. rewrite Hs. repeat split; try lia; eauto.
Qed.

Lemma retry_zero :
  max_retries <= 0 ->
  _retry_with_backoff os_refuses func max_retries initial_delay
  = mkRetryRun ReturnedNone 0 [].
Proof.
  intros H. unfold _retry_with_backoff.
  replace (Z.to_nat max_retries) with 0%nat by lia. reflexivity.
Qed.

Lemma retry_positive :
  0 < max_retries ->
  let r := _retry_with_backoff os_refuses func max_retries initial_delay in
  retry_sleeps r
  = map (backoff_delay initial_delay) (seq 0 (length (retry_sleeps r)))
  /\ retry_calls r = S (length (retry_sleeps r))
  /\ Z.of_nat (retry_calls r) <= max_retries
  /\ (forall k, (S k < retry_calls r)%nat -> retried k)
  /\ match retry_outcome r with
     | Returned v => func (pred (retry_calls r)) = inr v
     | ReturnedNone => False
     | Reraised e =>
         func (pred (retry_calls r)) = inl e
         /\ (rate_limited e = false \/ Z.of_nat (retry_calls r) = max_retries)
     | SleepRaised err =>
         Z.of_nat (retry_calls r) < max_retries
         /\ time_sleep (os_refuses (pred (retry_calls r)))
              (backoff_delay initial_delay (pred (retry_calls r)))
            = Some err
         /\ exists e, func (pred (retry_calls r)) = inl e
                      /\ rate_limited e = true
     end.
Proof.
  intros H. unfold _retry_with_backoff.
  apply (retry_loop_spec (Z.to_nat max_retries) 0); lia.
Qed.

End Retry.

Lemma sum_backoff (d : Z) (n : nat) :
  fold_right Z.add 0 (map (backoff_delay d) (seq 0 n))
  = d * (2 ^ Z.of_nat n - 1).
Proof.
  induction n as [|n IH]; [cbn; lia|].
  rewrite seq_S, map_app, fold_right_app. cbn [map fold_right Nat.add].
  assert (E : forall l a, fold_right Z.add a l = fold_right Z.add 0 l + a).
  { induction l as [|x l IHl]; intros a; cbn; [lia|]. rewrite IHl. lia. }
  rewrite E, IH. unfold backoff_delay.
  rewrite Nat2Z.inj_succ, Z.pow_succ_r by lia. lia.
Qed.

(** X1. The loop falls through, and the call returns [None] without ever
    calling [func], exactly when [max_retries] is not positive; with a
    positive [max_retries] the call ends with the value or the exception
    of a call of [func] (or with the exception of [time.sleep]). *)
Theorem retry_none_iff_no_attempts {A} (os_refuses : nat -> Z -> bool)
    (func : nat -> pystr + A) (max_retries initial_delay : Z) :
  let r := _retry_with_backoff os_refuses func max_retries initial_delay in
  (retry_outcome r = ReturnedNone <-> max_retries <= 0)
  /\ (retry_calls r = 0%nat <-> max_retries <= 0).
Proof.
  intros r. subst r.
  destruct (Z.leb_spec max_retries 0) as [H|H].
  - rewrite (retry_zero os_refuses func max_retries initial_delay H). cbn.
    split; split; auto.
  - destruct (retry_positive os_refuses func max_retries initial_delay H)
      as (_ & Hc & _ & _ & Ho).
    split; split; try lia.
    intros E. rewrite E in Ho. contradiction.
Qed.

(** X2. [func] is called at most [max_retries] times; between two calls
    the loop sleeps once, the k-th time for [initial_delay * 2 ** k]
    seconds, so that a run with [c] calls has slept
    [initial_delay * (2 ** (c - 1) - 1)] seconds in all. *)
Theorem retry_calls_and_sleeps {A} (os_refuses : nat -> Z -> bool)
    (func : nat -> pystr + A) (max_retries initial_delay : Z) :
  let r := _retry_with_backoff os_refuses func max_retries initial_delay in
  Z.of_nat (retry_calls r) <= Z.max 0 max_retries
  /\ retry_sleeps r
     = map (backoff_delay initial_delay) (seq 0 (pred (retry_calls r)))
  /\ fold_right Z.add 0 (retry_sleeps r)
     = initial_delay * (2 ^ Z.of_nat (pred (retry_calls r)) - 1).
Proof.
  intros r. subst r.
  destruct (Z.leb_spec max_retries 0) as [H|H].
  - rewrite (retry_zero os_refuses func max_retries initial_delay H). cbn.
    repeat split; lia.
  - destruct (retry_positive os_refuses func max_retries initial_delay H)
      as (Hs & Hc & Hle & _ & _).
    rewrite Hc. cbn [pred].
    split; [lia|]. split; [exact Hs|].
    rewrite Hs at 1. apply sum_backoff.
Qed.


(* ================================================================== *)
(** ** [_wait_for_result]                                              *)
(* ================================================================== *)

Lemma poll_step_never_timeout (c : bool) (r : Reply) :
  poll_step c r <> StepDone (WaitRaise TimeoutError).
Proof.
  unfold poll_step. destruct r as [|r]; [discriminate|].
  destruct (status_code r =? 429); [discriminate|].
  destruct (_ && _); [discriminate|].
  destruct (body r) as [data|]; [|destruct c; discriminate].
  destruct (dict_get data "status") as [status|]; [|discriminate].
  destruct (is_str status "Task not found"); [discriminate|].
  destruct (_ && _); [|discriminate].
  destruct (dict_get _ "sample") as [u|]; [|discriminate].
  destruct (truthy u); discriminate.
Qed.

Lemma wait_loop_more_fuel (env : PollEnv) (start_time : Z) (fuel : nat) :
  forall now delay polls sleeps run,
    wait_loop fuel env start_time now delay polls sleeps = Some run ->
    wait_loop (S fuel) env start_time now delay polls sleeps = Some run.
Proof.
  induction fuel as [|fuel IH]; intros now delay polls sleeps run H;
    [discriminate|].
  cbn [wait_loop] in H. cbn [wait_loop].
  destruct (_ <? _); [|exact H].
  destruct (poll_step _ _); [exact H| |]; now apply IH.
Qed.

Lemma wait_loop_fuel_le (env : PollEnv) (start_time : Z) (fuel fuel' : nat) :
  (fuel <= fuel')%nat ->
  forall now delay polls sleeps run,
    wait_loop fuel env start_time now delay polls sleeps = Some run ->
    wait_loop fuel' env start_time now delay polls sleeps = Some run.
Proof.
  induction 1 as [|fuel' _ IH]; intros; [assumption|].
  now apply wait_loop_more_fuel, IH.
Qed.

Section Wait.

Variable env : PollEnv.
Variable start_time : Z.
Hypothesis env_steady : steady env.

Let tps := ticks_per_second env.

Lemma wait_loop_spec (fuel : nat) :
  forall now delay polls sleeps,
    (152 <= fuel + length polls)%nat ->
    wait_inv env start_time now delay polls sleeps ->
    exists run,
      wait_loop fuel env start_time now delay polls sleeps = Some run
      /\ wait_post env start_time run.
Proof.
  destruct env_steady as [Htps Hov]. fold tps in Htps.
  induction fuel as [|fuel IH];
    intros now delay polls sleeps Hfuel (Hlen & Hpot & Hpolls & Hsl & Hnd).
  - cbn in Hfuel. lia.
  - cbn [wait_loop]. fold tps.
    destruct (Z.ltb_spec (now - start_time) (MAX_WAIT_TIME * tps)) as [Hin|Hout].
    + assert (Hi : (length polls <= 150)%nat).
      { unfold MAX_WAIT_TIME in Hin. destruct Hpot as [[_ Hp]|[_ Hp]]; nia. }
      pose proof (Hov (length polls)) as Ho.
      destruct (poll_step (json_error_caught env) (reply env (length polls)))
        as [o| |] eqn:Hstep.
      * eexists. split; [reflexivity|].
        unfold wait_post. cbn [wait_polls wait_sleeps wait_outcome length].
        split; [lia|]. split; [now constructor|]. split; [assumption|].
        assert (Hex : exists n, S (length polls) = S n
                  /\ poll_step (json_error_caught env) (reply env n) = StepDone o
                  /\ forall k, (k < n)%nat -> decisive env k = false)
          by (exists (length polls); auto).
        destruct o as [u|[]]; try exact Hex.
        exfalso. exact (poll_step_never_timeout _ _ Hstep).
      * apply IH; [cbn [length]; lia|].
        unfold wait_inv. cbn [length]. rewrite Nat2Z.inj_succ.
        split; [lia|]. split; [|split; [|split]].
        -- unfold MAX_RETRY_DELAY.
           destruct Hpot as [[-> Hp]|[Hd Hp]]; [left|right].
           ++ change (Z.min (2 * 2) 30) with 4. split; lia.
           ++ assert (8 <= Z.min (delay * 2) 30) by lia. split; [lia|nia].
        -- now constructor.
        -- constructor; [|assumption]. unfold MAX_RETRY_DELAY.
           destruct Hpot as [[-> _]|[Hd _]]; lia.
        -- intros k Hk. destruct (Nat.eq_dec k (length polls)) as [->|Hne].
           ++ unfold decisive. now rewrite Hstep.
           ++ apply Hnd. lia.
      * apply IH; [cbn [length]; lia|].
        unfold wait_inv. cbn [length]. rewrite Nat2Z.inj_succ.
        split; [lia|]. split; [|split; [|split]].
        -- unfold MAX_RETRY_DELAY. right.
           destruct Hpot as [[-> Hp]|[Hd Hp]]; (split; [lia|nia]).
        -- now constructor.
        -- constructor; [|assumption].
           destruct Hpot as [[-> _]|[Hd _]]; lia.
        -- intros k Hk. destruct (Nat.eq_dec k (length polls)) as [->|Hne].
           ++ unfold decisive. now rewrite Hstep.
           ++ apply Hnd. lia.
    + eexists. split; [reflexivity|].
      unfold wait_post. cbn [wait_polls wait_sleeps wait_outcome wait_end].
      repeat split; assumption.
Qed.

End Wait.

Lemma wait_from_start (env : PollEnv) (start_time : Z) :
  steady env ->
  exists run,
    (forall fuel, (152 <= fuel)%nat ->
                  _wait_for_result fuel env start_time = Some run)
    /\ wait_post env start_time run.
Proof.
  intros Hs.
  destruct (wait_loop_spec env start_time Hs 152 start_time
              INITIAL_RETRY_DELAY [] []) as (run & Hrun & Hpost).
  - cbn. lia.
  - unfold wait_inv. cbn [length].
    split; [lia|]. split; [left; unfold INITIAL_RETRY_DELAY; split; lia|].
    split; [constructor|]. split; [constructor|].
    intros k Hk. lia.
  - exists run. split; [|exact Hpost].
    intros fuel Hfuel. unfold _wait_for_result.
    now apply (wait_loop_fuel_le env start_time 152 fuel Hfuel).
Qed.

(** X4. The polling loop ends: on a clock that does not run backwards it
    sends at most 151 requests, every one of them less than 600 seconds
    after the start, and sleeps between 2 and 30 seconds after each. *)
Theorem wait_sends_at_most_151_requests (env : PollEnv) (start_time : Z) :
  steady env ->
  exists run,
    (forall fuel, (152 <= fuel)%nat ->
                  _wait_for_result fuel env start_time = Some run)
    /\ (length (wait_polls run) <= 151)%nat
    /\ Forall (fun t => t - start_time < 600 * ticks_per_second env)
         (wait_polls run)
    /\ Forall (fun s => 2 <= s <= 30) (wait_sleeps run).
Proof.
  intros Hs.
  destruct (wait_from_start env start_time Hs)
    as (run & Hrun & Hl & Hp & Hsl & _).
  exists run. auto.
Qed.

(** X5. The call returns only what a "Ready" answer carries: when it
    returns [u], the last request was answered with a status outside
    400..599, the body was a JSON object whose "status" is "Ready" and
    whose "result" is an object with the member "sample" equal to [u],
    and [u] is truthy; no earlier answer ended the call. *)
Theorem wait_returns_ready_sample (env : PollEnv) (start_time : Z)
    (fuel : nat) (run : WaitRun) (u : json) :
  steady env ->
  _wait_for_result fuel env start_time = Some run ->
  wait_outcome run = WaitReturn u ->
  exists n response data result,
    length (wait_polls run) = S n
    /\ reply env n = Replied response
    /\ ~ (400 <= status_code response < 600)
    /\ body response = Some data
    /\ dict_get data "status" = Some (JStr "Ready")
    /\ dict_get data "result" = Some result
    /\ dict_get result "sample" = Some u
    /\ truthy u = true
    /\ forall k, (k < n)%nat -> decisive env k = false.
Proof.
  intros Hs Hrun Ho.
  destruct (wait_from_start env start_time Hs) as (run' & Hrun' & Hpost).
  assert (run' = run).
  { pose proof (Hrun' (max fuel 152) ltac:(lia)) as H1.
    pose proof (wait_loop_fuel_le env start_time fuel (max fuel 152)
                  ltac:(lia) _ _ _ _ _ Hrun) as H2.
    unfold _wait_for_result in H1. congruence. }
  subst run'. destruct Hpost as (_ & _ & _ & Hout).
  rewrite Ho in Hout. destruct Hout as (n & Hn & Hstep & Hbefore).
  unfold poll_step in Hstep.
  destruct (reply env n) as [|response] eqn:Hr; [discriminate|].
  destruct (Z.eqb_spec (status_code response) 429); [discriminate|].
  destruct ((400 <=? status_code response)
            && (status_code response <? 600)) eqn:E; [discriminate|].
  assert (Hcode : ~ (400 <= status_code response < 600)).
  { intros [H1 H2]. apply andb_false_iff in E.
    destruct E as [E|E]; [apply Z.leb_gt in E|apply Z.ltb_ge in E]; lia. }
  destruct (body response) as [data|] eqn:Hb;
    [|destruct (json_error_caught env); discriminate].
  destruct (dict_get data "status") as [status|] eqn:Hst; [|discriminate].
  destruct (is_str status "Task not found"); [discriminate|].
  destruct (is_str status "Ready") eqn:Hready; [|discriminate].
  cbn [andb] in Hstep.
  destruct (dict_get data "result") as [result|] eqn:Hres;
    [|discriminate].
  destruct (truthy result); [|discriminate].
  destruct (dict_get result "sample") as [v|] eqn:Hsa; [|discriminate].
  destruct (truthy v) eqn:Htv; [|discriminate].
  injection Hstep as <-.
  exists n, response, data, result.
  repeat split; auto.
  destruct status; try discriminate. cbn in Hready.
  apply String.eqb_eq in Hready. now subst.
Qed.

(** X6. Failed requests and HTTP error answers never end the call with
    their own exception: when every request fails or is answered with a
    status in 400..599, the call raises [TimeoutError], and not before
    600 seconds have passed. *)
Theorem wait_errors_end_in_timeout (env : PollEnv) (start_time : Z) :
  steady env ->
  (forall i, reply env i = RequestFailed
             \/ exists r, reply env i = Replied r
                          /\ 400 <= status_code r < 600) ->
  exists run,
    (forall fuel, (152 <= fuel)%nat ->
                  _wait_for_result fuel env start_time = Some run)
    /\ wait_outcome run = WaitRaise TimeoutError
    /\ 600 * ticks_per_second env <= wait_end run - start_time.
Proof.
  intros Hs Hbad.
  destruct (wait_from_start env start_time Hs)
    as (run & Hrun & _ & _ & _ & Hout).
  exists run. split; [exact Hrun|].
  assert (Hno : forall n o,
             poll_step (json_error_caught env) (reply env n) <> StepDone o).
  { intros n o. unfold poll_step.
    destruct (Hbad n) as [-> | (r & -> & Hc)]; [discriminate|].
    destruct (status_code r =? 429); [discriminate|].
    destruct (Z.leb_spec 400 (status_code r)); [|lia].
    destruct (Z.ltb_spec (status_code r) 600); [|lia].
    discriminate. }
  destruct (wait_outcome run) as [u|[]];
    try (destruct Hout as (n & _ & Hstep & _); now apply Hno in Hstep).
  split; [reflexivity|]. apply Hout.
Qed.

(* ================================================================== *)
(** ** Python text: substrings                                         *)
(* ================================================================== *)

Lemma startswith_spec (p s : pystr) :
  startswith p s = true <-> exists rest, s = p ++ rest.
Proof.
  revert s. induction p as [|a p IH]; intros s; cbn.
  - split; [intros _; now exists s | reflexivity].
  - destruct s as [|b s]; cbn.
    + split; [discriminate | intros (rest & H); discriminate].
    + rewrite andb_true_iff, IH. split.
      * intros [E (rest & ->)]. apply Ascii.eqb_eq in E. subst.
        now exists rest.
      * intros (rest & H). injection H as -> ->.
        split; [apply Ascii.eqb_refl | now exists rest].
Qed.

Lemma str_in_spec (k s : pystr) :
  str_in k s = true <-> exists pre post, s = pre ++ k ++ post.
Proof.
  induction s as [|c s IH]; cbn [str_in]; rewrite orb_true_iff.
  - rewrite startswith_spec. split.
    + intros [(rest & H) | H]; [|discriminate]. now exists [], rest.
    + intros (pre & post & H). left.
      destruct pre; [now exists post|discriminate].
  - rewrite startswith_spec, IH. split.
    + intros [(rest & H) | (pre & post & ->)].
      * now exists [], rest.
      * now exists (c :: pre), post.
    + intros (pre & post & H). destruct pre as [|a pre].
      * left. now exists post.
      * right. injection H as -> ->. now exists pre, post.
Qed.

Lemma str_in_trans (a b c : pystr) :
  str_in a b = true -> str_in b c = true -> str_in a c = true.
Proof.
  rewrite !str_in_spec. intros (p1 & q1 & ->) (p2 & q2 & ->).
  exists (p2 ++ p1), (q1 ++ q2). now rewrite <- !app_assoc.
Qed.

Lemma str_in_length (k s : pystr) :
  str_in k s = true -> (length k <= length s)%nat.
Proof.
  rewrite str_in_spec. intros (pre & post & ->).
  rewrite !length_app. lia.
Qed.

Lemma str_lower_app (a b : pystr) :
  str_lower (a ++ b) = str_lower a ++ str_lower b.
Proof. apply map_app. Qed.

(* ================================================================== *)
(** ** [_has_relevant_keywords]                                        *)
(* ================================================================== *)

Lemma relevant_iff (t : pystr) :
  _has_relevant_keywords (Some t) = true
  <-> exists keyword, In keyword VISUAL_KEYWORDS
                      /\ str_in keyword (str_lower t) = true.
Proof.
  unfold _has_relevant_keywords. destruct t as [|c t].
  - split; [discriminate|]. intros (k & Hk & Hin).
    apply str_in_length in Hin. cbn in Hin.
    assert (Hlen : Forall (fun k => (1 <= length k)%nat) VISUAL_KEYWORDS)
      by (apply Forall_forall; intros x Hx;
          repeat (destruct Hx as [<-|Hx]; [cbn; lia|]); destruct Hx).
    rewrite Forall_forall in Hlen. specialize (Hlen k Hk). lia.
  - rewrite existsb_exists. reflexivity.
Qed.

(** X7. Keywords are matched as substrings of the lower-cased text, not as
    words: a text stays relevant whatever is written before and after
    it. *)
Theorem relevant_inside_longer_text (before text after : pystr) :
  _has_relevant_keywords (Some text) = true ->
  _has_relevant_keywords (Some (before ++ text ++ after)) = true.
Proof.
  rewrite !relevant_iff. intros (k & Hk & Hin). exists k. split; [exact Hk|].
  rewrite !str_lower_app.
  apply str_in_spec in Hin as (pre & post & ->).
  apply str_in_spec. exists (str_lower before ++ pre), (post ++ str_lower after).
  now rewrite <- !app_assoc.
Qed.

(** X8. [None], the empty text and every text of fewer than four
    characters are not relevant: no keyword is that short. *)
Theorem short_text_not_relevant (text : option pystr) :
  _has_relevant_keywords text = true ->
  exists t, text = Some t /\ (4 <= length t)%nat.
Proof.
  destruct text as [t|]; [|discriminate]. intros H. exists t.
  split; [reflexivity|].
  apply relevant_iff in H as (k & Hk & Hin).
  apply str_in_length in Hin. unfold str_lower in Hin.
  rewrite length_map in Hin.
  assert (Hlen : forallb (fun k => Nat.leb 4 (length k)) VISUAL_KEYWORDS = true)
    by (vm_compute; reflexivity).
  rewrite forallb_forall in Hlen. specialize (Hlen k Hk).
  apply Nat.leb_le in Hlen. lia.
Qed.

(** X9. Five keywords never decide: "lighting" and "sunlight" contain
    "light", "moody" contains "mood", "textured" contains "texture" and
    "patterned" contains "pattern", so the answer is the same without
    them. *)
Theorem subsumed_keywords_never_decide (text : pystr) :
  existsb (fun keyword => str_in keyword (str_lower text))
    (filter (fun k => negb (existsb (pystr_eqb k) SUBSUMED_KEYWORDS))
       VISUAL_KEYWORDS)
  = _has_relevant_keywords (Some text).
Proof.
  set (core := filter _ VISUAL_KEYWORDS).
  assert (Hcover : forallb (fun k => existsb (fun k0 => str_in k0 k) core)
                     VISUAL_KEYWORDS = true) by (vm_compute; reflexivity).
  rewrite forallb_forall in Hcover.
  apply eq_true_iff_eq. rewrite relevant_iff, existsb_exists. split.
  - intros (k & Hk & Hin). exists k. split; [|exact Hin].
    unfold core in Hk. now apply filter_In in Hk.
  - intros (k & Hk & Hin).
    specialize (Hcover k Hk). apply existsb_exists in Hcover as (k0 & Hk0 & H0).
    exists k0. split; [exact Hk0|]. exact (str_in_trans _ _ _ H0 Hin).
Qed.

(* ================================================================== *)
(** ** [_clean_text]                                                   *)
(* ================================================================== *)

Lemma re_sub_drop_skip (m : pystr -> option nat) (k : nat) (s : pystr) :
  re_sub_drop m k s = re_sub_drop m 0 (skipn k s).
Proof.
  revert k. induction s as [|c s IH]; intros [|k]; cbn [skipn]; try reflexivity.
  cbn [re_sub_drop]. apply IH.
Qed.

Lemma Subseq_refl {A} (l : list A) : Subseq l l.
Proof. induction l; constructor; assumption. Qed.

Lemma Subseq_trans {A} (a b c : list A) :
  Subseq a b -> Subseq b c -> Subseq a c.
Proof.
  intros Hab Hbc. revert a Hab.
  induction Hbc as [|x l1 l2 H IH|x l1 l2 H IH]; intros a Hab.
  - exact Hab.
  - inversion Hab; subst; constructor; auto.
  - constructor. auto.
Qed.

Lemma Subseq_length {A} (a b : list A) :
  Subseq a b -> (length a <= length b)%nat.
Proof. induction 1; cbn; lia. Qed.

Lemma re_sub_drop_subseq (m : pystr -> option nat) (k : nat) (s : pystr) :
  Subseq (re_sub_drop m k s) s.
Proof.
  revert k. induction s as [|c s IH]; intros k; cbn [re_sub_drop].
  - constructor.
  - destruct k as [|k]; [|constructor; apply IH].
    destruct (m (c :: s)); constructor; apply IH.
Qed.

Lemma lstrip_suffix (s : pystr) : exists pre, s = pre ++ lstrip s.
Proof.
  induction s as [|c s (pre & IH)]; cbn.
  - now exists [].
  - destruct (isspace c).
    + exists (c :: pre). cbn. now f_equal.
    + now exists [].
Qed.

Lemma lstrip_head (s : pystr) :
  match lstrip s with [] => True | c :: _ => isspace c = false end.
Proof.
  induction s as [|c s IH]; cbn; [exact I|].
  destruct (isspace c) eqn:E; [exact IH | exact E].
Qed.

Lemma lstrip_snoc (s : pystr) (c : ascii) :
  isspace c = false -> lstrip (s ++ [c]) = lstrip s ++ [c].
Proof.
  intros E. induction s as [|a s IH]; cbn.
  - now rewrite E.
  - destruct (isspace a); [exact IH | reflexivity].
Qed.

Lemma str_strip_infix (s : pystr) :
  exists pre post, s = pre ++ str_strip s ++ post.
Proof.
  unfold str_strip.
  destruct (lstrip_suffix s) as (pre & Hpre).
  destruct (lstrip_suffix (rev (lstrip s))) as (q & Hq).
  exists pre, (rev q).
  rewrite <- rev_app_distr, <- Hq, rev_involutive. exact Hpre.
Qed.

Lemma str_strip_stripped (s : pystr) : stripped (str_strip s).
Proof.
  unfold stripped, str_strip. rewrite rev_involutive. split.
  - pose proof (lstrip_head s) as Hh.
    destruct (lstrip s) as [|c r] eqn:E; [exact I|].
    (* the first kept character ends the reversed text and is never
       stripped from it *)
    cbn [rev]. rewrite (lstrip_snoc (rev r) c Hh), rev_app_distr. exact Hh.
  - apply lstrip_head.
Qed.

Lemma Subseq_app_mid {A} (pre l post : list A) : Subseq l (pre ++ l ++ post).
Proof.
  induction pre as [|x pre IH]; cbn.
  - induction l as [|y l IHl]; cbn.
    + induction post; constructor; assumption.
    + now constructor.
  - now constructor.
Qed.

Lemma no_url_cons (c : ascii) (s : pystr) :
  no_url (c :: s) <-> match_url (c :: s) = None /\ no_url s.
Proof.
  unfold no_url. split.
  - intros H. split; [now apply (H [])|].
    intros pre post ->. now apply (H (c :: pre)).
  - intros [H0 H] pre post E. destruct pre as [|a pre].
    + cbn in E. now subst.
    + injection E as -> ->. now apply (H pre).
Qed.

Lemma no_url_nil : no_url [].
Proof. intros pre post E. symmetry in E. apply app_eq_nil in E as [_ ->]. reflexivity. Qed.

Lemma match_url_space (c : ascii) (s : pystr) :
  isspace c = true -> match_url (c :: s) = None.
Proof.
  intros E. unfold match_url. cbn [startswith lit list_ascii_of_string].
  destruct (Ascii.eqb_spec "h"%char c) as [<-|]; [discriminate E | reflexivity].
Qed.

Lemma span_skipn (s : pystr) :
  match skipn (span_nonspace s) s with
  | [] => True
  | c :: _ => isspace c = true
  end.
Proof.
  induction s as [|c s IH]; cbn; [exact I|].
  destruct (isspace c) eqn:E; cbn; [exact E | exact IH].
Qed.

(** Behind a URL match comes white space or the end of the text. *)
Lemma match_url_rest (s : pystr) (n : nat) :
  match_url s = Some n ->
  match skipn n s with [] => True | c :: _ => isspace c = true end.
Proof.
  unfold match_url. destruct (startswith (lit "http") s); [|discriminate].
  destruct (span_nonspace (skipn 4 s)) as [|k] eqn:E; [discriminate|].
  intros H. injection H as <-.
  pose proof (span_skipn (skipn 4 s)) as Hs.
  rewrite E, skipn_skipn in Hs.
  replace (S k + 4)%nat with (4 + S k)%nat in Hs by lia. exact Hs.
Qed.

Lemma match_url_some (s : pystr) :
  match_url s <> None <->
  exists y r, s = lit "http" ++ y :: r /\ isspace y = false.
Proof.
  unfold match_url. split.
  - destruct (startswith (lit "http") s) eqn:Hst; [|congruence].
    apply startswith_spec in Hst as (rest & ->).
    change (skipn 4 (lit "http" ++ rest)) with rest.
    destruct rest as [|y r]; cbn [span_nonspace]; [congruence|].
    destruct (isspace y) eqn:Hy; [congruence|]. intros _. now exists y, r.
  - intros (y & r & -> & Hy).
    assert (Hst : startswith (lit "http") (lit "http" ++ y :: r) = true)
      by (apply startswith_spec; now exists (y :: r)).
    rewrite Hst. change (skipn 4 (lit "http" ++ y :: r)) with (y :: r).
    cbn [span_nonspace]. rewrite Hy. discriminate.
Qed.

Lemma url_drop_space (c : ascii) (s : pystr) :
  isspace c = true ->
  re_sub_drop match_url 0 (c :: s) = c :: re_sub_drop match_url 0 s.
Proof. intros E. cbn [re_sub_drop]. now rewrite (match_url_space c s E). Qed.

Lemma url_drop_match (s : pystr) (n : nat) :
  match_url s = Some n ->
  re_sub_drop match_url 0 s = re_sub_drop match_url 0 (skipn n s).
Proof.
  intros H. destruct s as [|c s]; [discriminate|].
  cbn [re_sub_drop]. rewrite H, re_sub_drop_skip.
  destruct n as [|n]; [|reflexivity].
  unfold match_url in H. destruct (startswith _ _); [|discriminate].
  destruct (span_nonspace _); discriminate.
Qed.

(** A character other than white space at the head of the result was the
    head of the text and started no match. *)
Lemma url_drop_head (s r : pystr) (a : ascii) :
  re_sub_drop match_url 0 s = a :: r -> isspace a = false ->
  exists s0, s = a :: s0 /\ r = re_sub_drop match_url 0 s0.
Proof.
  intros H Ha. destruct s as [|c s]; [discriminate|].
  destruct (match_url (c :: s)) as [n|] eqn:Hm.
  - exfalso. rewrite (url_drop_match _ _ Hm) in H.
    pose proof (match_url_rest _ _ Hm) as Hrest.
    destruct (skipn n (c :: s)) as [|b t]; [discriminate|].
    rewrite (url_drop_space b t Hrest) in H. injection H as -> _.
    congruence.
  - cbn [re_sub_drop] in H. rewrite Hm in H. injection H as -> <-.
    now exists s.
Qed.

Lemma url_drop_no_url (n : nat) :
  forall s, (length s <= n)%nat -> no_url (re_sub_drop match_url 0 s).
Proof.
  induction n as [|n IH]; intros s Hlen.
  - destruct s; [apply no_url_nil | cbn in Hlen; lia].
  - destruct s as [|c s]; [apply no_url_nil|]. cbn in Hlen.
    destruct (match_url (c :: s)) as [k|] eqn:Hm.
    + rewrite (url_drop_match _ _ Hm). apply IH.
      destruct k as [|k].
      * exfalso. unfold match_url in Hm.
        destruct (startswith _ _); [|discriminate].
        destruct (span_nonspace _); discriminate.
      * cbn [skipn]. rewrite length_skipn. lia.
    + cbn [re_sub_drop]. rewrite Hm. apply no_url_cons.
      split; [|apply IH; lia].
      destruct (match_url (c :: re_sub_drop match_url 0 s)) as [k|] eqn:Hk;
        [|reflexivity].
      exfalso.
      assert (Hk' : match_url (c :: re_sub_drop match_url 0 s) <> None)
        by congruence.
      apply match_url_some in Hk' as (y & r & Hst & Hy).
      unfold lit in Hst. cbn [list_ascii_of_string app] in Hst.
      injection Hst as -> Hst.
      apply url_drop_head in Hst as (s1 & -> & Hst); [|reflexivity].
      symmetry in Hst.
      apply url_drop_head in Hst as (s2 & -> & Hst); [|reflexivity].
      symmetry in Hst.
      apply url_drop_head in Hst as (s3 & -> & Hst); [|reflexivity].
      symmetry in Hst.
      apply url_drop_head in Hst as (s4 & -> & _); [|exact Hy].
      assert (Hm' : match_url (lit "http" ++ y :: s4) <> None)
        by (apply match_url_some; now exists y, s4).
      apply Hm'. exact Hm.
Qed.

Lemma no_url_infix (pre s post : pystr) :
  no_url (pre ++ s ++ post) -> no_url s.
Proof.
  intros H a b ->.
  destruct (match_url b) as [n|] eqn:Hb; [|reflexivity]. exfalso.
  assert (Hb' : match_url b <> None) by congruence.
  apply match_url_some in Hb' as (y & r & -> & Hy).
  assert (Hm : match_url (lit "http" ++ y :: r ++ post) <> None)
    by (apply match_url_some; now exists y, (r ++ post)).
  apply Hm, (H (pre ++ a)).
  rewrite <- !app_assoc. reflexivity.
Qed.

(** X10. Cleaning only deletes characters: the result is the text with
    some characters left out, in the same order, and it neither begins
    nor ends with white space. *)
Theorem clean_text_deletes_and_strips (text : option pystr) :
  Subseq (_clean_text text) (text_of text)
  /\ stripped (_clean_text text).
Proof.
  destruct text as [[|c t]|]; cbn [_clean_text text_of];
    try (split; [constructor | split; exact I]).
  split; [|apply str_strip_stripped].
  set (t1 := re_sub_drop match_link 0 (c :: t)).
  set (t2 := re_sub_drop match_url 0 t1).
  destruct (str_strip_infix t2) as (pre & post & E).
  apply (Subseq_trans _ t2).
  - rewrite E at 2. apply Subseq_app_mid.
  - apply (Subseq_trans _ t1); apply re_sub_drop_subseq.
Qed.

(** X11. No URL is left in a cleaned text: nowhere in it does "http" stand
    before a character that is not white space. *)
Theorem clean_text_leaves_no_url (text : option pystr) :
  no_url (_clean_text text).
Proof.
  destruct text as [[|c t]|]; cbn [_clean_text]; try apply no_url_nil.
  set (t1 := re_sub_drop match_link 0 (c :: t)).
  destruct (str_strip_infix (re_sub_drop match_url 0 t1)) as (pre & post & E).
  apply (no_url_infix pre _ post). rewrite <- E.
  now apply (url_drop_no_url (length t1)).
Qed.

Lemma re_sub_drop_no_match (m : pystr -> option nat) (s : pystr) :
  (forall pre post, s = pre ++ post -> m post = None) ->
  re_sub_drop m 0 s = s.
Proof.
  induction s as [|c s IH]; intros H; cbn [re_sub_drop]; [reflexivity|].
  rewrite (H [] (c :: s) eq_refl). f_equal. apply IH.
  intros pre post ->. now apply (H (c :: pre)).
Qed.

(** X12. A text without "[" and without "http" is only stripped of the
    white space around it. *)
Theorem clean_text_plain (t : pystr) :
  ~ In (chr "[") t -> str_in (lit "http") t = false ->
  _clean_text (Some t) = str_strip t.
Proof.
  intros Hb Hh. destruct t as [|c t]; [reflexivity|].
  cbn [_clean_text].
  rewrite (re_sub_drop_no_match match_link).
  - rewrite (re_sub_drop_no_match match_url); [reflexivity|].
    intros pre post E.
    destruct (match_url post) as [n|] eqn:Hm; [|reflexivity]. exfalso.
    assert (Hm' : match_url post <> None) by congruence.
    apply match_url_some in Hm' as (y & r & -> & _).
    assert (Hin : str_in (lit "http") (c :: t) = true)
      by (apply str_in_spec; exists pre, (y :: r); exact E).
    congruence.
  - intros pre post E. destruct post as [|a post]; [reflexivity|].
    unfold match_link.
    destruct (Ascii.eqb_spec a (chr "[")) as [->|]; [|reflexivity].
    exfalso. apply Hb. rewrite E. apply in_or_app. right. now left.
Qed.

(* ================================================================== *)
(** ** [_extract_post_data]                                            *)
(* ================================================================== *)

(** X13. What an extracted post holds: the stripped title; a description
    that is never the empty string; comments that are never an empty
    list, at most three, each without URL and without white space around
    it; and a keyword in the title, the description or one of these
    comments. *)
Theorem extracted_post_shape (post : option Submission) (data : PostData) :
  _extract_post_data post = ExtractData data ->
  stripped (post_t data)
  /\ post_d data <> Some []
  /\ match post_c data with
     | None => True
     | Some cs =>
         (1 <= length cs <= 3)%nat
         /\ Forall (fun c => no_url c /\ stripped c) cs
     end
  /\ (_has_relevant_keywords (Some (post_t data)) = true
      \/ _has_relevant_keywords (post_d data) = true
      \/ exists c cs, post_c data = Some cs /\ In c cs
                      /\ _has_relevant_keywords (Some c) = true).
Proof.
  unfold _extract_post_data. destruct post as [post|]; [|discriminate].
  destruct (comments post) as [cs|]; [|discriminate].
  set (ttl := str_strip (title post)).
  set (desc := match selftext post with Some x => str_strip x | None => [] end).
  destruct (negb _) eqn:Hrel; [discriminate|].
  intros H. injection H as <-. cbn [post_t post_d post_c].
  split; [apply str_strip_stripped|]. split; [|split].
  - destruct desc; cbn; congruence.
  - destruct (top_comments cs) as [|c0 cs0] eqn:Hc; cbn [nonempty]; [exact I|].
    rewrite <- Hc. split.
    + split; [rewrite Hc; cbn; lia|].
      unfold top_comments. rewrite length_map.
      etransitivity; [apply filter_length_le|].
      rewrite length_firstn. unfold MAX_COMMENTS. lia.
    + unfold top_comments. apply Forall_forall. intros x Hx.
      apply in_map_iff in Hx as (cm & <- & _).
      split; [apply clean_text_leaves_no_url|].
      apply clean_text_deletes_and_strips.
  - apply negb_false_iff in Hrel. rewrite !orb_true_iff in Hrel.
    destruct Hrel as [[Ht|Hd]|Hc]; [now left | right; left | right; right].
    + destruct desc; [discriminate Hd | exact Hd].
    + apply existsb_exists in Hc as (c & Hin & Hc).
      exists c, (top_comments cs). split; [|now split].
      destruct (top_comments cs); [destruct Hin | reflexivity].
Qed.

(* ================================================================== *)
(** ** [create_customer_recommendations]                               *)
(* ================================================================== *)

Section RecommendationFacts.

Context {Id Conf : Type}.
Let Row := PredictionRow Id Conf.
Let Rec := RecommendationRow Id Conf.

Lemma sample_one_in (images : list string) (r : nat) (x : string) :
  sample_one images r = inr x -> In x images.
Proof.
  destruct images as [|y l]; [discriminate|].
  intros H.
  assert (E : x = nth (r mod length (y :: l)) (y :: l) y)
    by (unfold sample_one in H; congruence).
  rewrite E. apply nth_In, Nat.mod_upper_bound. discriminate.
Qed.

Lemma recommend_rows_spec (category_images : list (string * list string))
    (rng : nat -> nat) (rows : list Row) :
  forall i,
    match recommend_rows rows category_images rng i with
    | inr results =>
        Forall2 (fun (row : Row) (r : Rec) =>
                   rec_customer_id r = customer_id row
                   /\ rec_predicted_category r = predicted_category row
                   /\ prediction_confidence r = confidence row
                   /\ exists images,
                        dict_lookup (predicted_category row) category_images
                        = Some images
                        /\ In (enhanced_image_path r) images)
          rows results
    | inl (KeyError key) =>
        dict_lookup key category_images = None
        /\ exists row, In row rows /\ predicted_category row = key
    | inl SampleValueError =>
        exists row, In row rows
          /\ dict_lookup (predicted_category row) category_images = Some []
    end.
Proof.
  induction rows as [|row rows IH]; intros i; cbn [recommend_rows].
  - constructor.
  - destruct (dict_lookup (predicted_category row) category_images)
      as [images|] eqn:Hl.
    + destruct (sample_one images (rng i)) as [e|x] eqn:Hs.
      * unfold sample_one in Hs. destruct images; [|discriminate].
        injection Hs as <-. exists row. split; [now left | exact Hl].
      * specialize (IH (S i)).
        destruct (recommend_rows rows category_images rng (S i))
          as [[key|]|results].
        -- destruct IH as (Hk & r0 & Hin & Hr0). split; [exact Hk|].
           exists r0. split; [now right | exact Hr0].
        -- destruct IH as (r0 & Hin & Hr0). exists r0.
           split; [now right | exact Hr0].
        -- constructor; [|exact IH]. cbn.
           repeat split. exists images. split; [exact Hl|].
           exact (sample_one_in _ _ _ Hs).
    + split; [exact Hl|]. exists row. split; [now left | reflexivity].
Qed.

Lemma dict_lookup_set_same {V} (key : string) (v : V) (d : list (string * V)) :
  dict_lookup key (dict_set key v d) = Some v.
Proof.
  induction d as [|[k v0] d IH]; cbn.
  - now rewrite String.eqb_refl.
  - destruct (String.eqb k key) eqn:E; cbn; rewrite E; [reflexivity | exact IH].
Qed.

Lemma dict_lookup_set_other {V} (key key' : string) (v : V)
    (d : list (string * V)) :
  key <> key' ->
  dict_lookup key' (dict_set key v d) = dict_lookup key' d.
Proof.
  intros Hne. induction d as [|[k v0] d IH]; cbn.
  - destruct (String.eqb_spec key key'); [contradiction | reflexivity].
  - destruct (String.eqb_spec k key) as [->|]; cbn.
    + destruct (String.eqb_spec key key'); [contradiction | reflexivity].
    + destruct (String.eqb k key'); [reflexivity | exact IH].
Qed.

Lemma lookup_after_sets {V} (v : V) (keys : list string) :
  forall (d : list (string * V)) (key : string),
    dict_lookup key (fold_left (fun d k => dict_set k v d) keys d)
    = if existsb (String.eqb key) keys then Some v else dict_lookup key d.
Proof.
  induction keys as [|k keys IH]; intros d key; cbn [fold_left existsb];
    [reflexivity|].
  rewrite IH. destruct (existsb (String.eqb key) keys);
    [now rewrite orb_true_r|]. rewrite orb_false_r.
  destruct (String.eqb_spec key k) as [->|Hne].
  - apply dict_lookup_set_same.
  - apply dict_lookup_set_other. congruence.
Qed.

Lemma unique_from_in (values seen : list string) (x : string) :
  In x (unique_from seen values) <-> In x values /\ ~ In x seen.
Proof.
  revert seen. induction values as [|y values IH]; intros seen; cbn.
  - tauto.
  - destruct (existsb (String.eqb y) seen) eqn:E.
    + apply existsb_exists in E as (z & Hz & Ez).
      apply String.eqb_eq in Ez. subst z.
      rewrite IH. split; [tauto|]. intros [[->|H] Hn]; tauto.
    + assert (Hy : ~ In y seen).
      { intros Hin. apply not_true_iff_false in E. apply E.
        apply existsb_exists. exists y. split; [exact Hin|].
        apply String.eqb_refl. }
      cbn. rewrite IH. cbn. split.
      * intros [->|[H Hn]]; tauto.
      * intros [[->|H] Hn]; [tauto|].
        destruct (string_dec y x); tauto.
Qed.

Lemma main_lookup (predictions_df : list Row) (enhanced_path : string)
    (row : Row) :
  In row predictions_df ->
  dict_lookup (predicted_category row)
    (main_category_images predictions_df enhanced_path)
  = Some [enhanced_path].
Proof.
  intros Hin. unfold main_category_images. rewrite lookup_after_sets.
  destruct (existsb _ _) eqn:E; [reflexivity|].
  exfalso. apply not_true_iff_false in E. apply E.
  apply existsb_exists. exists (predicted_category row).
  split; [|apply String.eqb_refl].
  apply unique_from_in. split; [|tauto].
  apply in_map_iff. now exists row.
Qed.

End RecommendationFacts.

(** X14. The rows of the result follow the rows of the predictions one by
    one, with the same customer, category and confidence and an image
    taken from the list of that category.  A category that is no key of
    [category_images] ends the call with [KeyError], an empty image list
    with the [ValueError] of the sampling. *)
Theorem recommendations_follow_predictions {Id Conf : Type}
    (predictions_df : list (PredictionRow Id Conf))
    (category_images : list (string * list string)) (rng : nat -> nat) :
  match create_customer_recommendations predictions_df category_images rng with
  | inr results =>
      Forall2 (fun row r =>
                 rec_customer_id r = customer_id row
                 /\ rec_predicted_category r = predicted_category row
                 /\ prediction_confidence r = confidence row
                 /\ exists images,
                      dict_lookup (predicted_category row) category_images
                      = Some images
                      /\ In (enhanced_image_path r) images)
        predictions_df results
  | inl (KeyError key) =>
      dict_lookup key category_images = None
      /\ exists row, In row predictions_df /\ predicted_category row = key
  | inl SampleValueError =>
      exists row, In row predictions_df
        /\ dict_lookup (predicted_category row) category_images = Some []
  end.
Proof. apply recommend_rows_spec. Qed.

(** X15. As [main] builds the image lists, every prediction gets a
    recommendation and all of them carry the one enhanced image, whatever
    the random numbers are; no [KeyError] can arise. *)
Theorem main_recommends_one_image {Id Conf : Type}
    (predictions_df : list (PredictionRow Id Conf))
    (enhanced_path : string) (rng : nat -> nat) :
  create_customer_recommendations predictions_df
    (main_category_images predictions_df enhanced_path) rng
  = inr (map (fun row =>
                mkRecommendationRow (customer_id row)
                  (predicted_category row) enhanced_path (confidence row))
           predictions_df).
Proof.
  unfold create_customer_recommendations.
  generalize 0%nat as i.
  assert (H : forall rows : list (PredictionRow Id Conf),
             (forall row, In row rows -> In row predictions_df) ->
             forall i,
               recommend_rows rows
                 (main_category_images predictions_df enhanced_path) rng i
               = inr (map (fun row =>
                             mkRecommendationRow (customer_id row)
                               (predicted_category row) enhanced_path
                               (confidence row)) rows)).
  { induction rows as [|row rows IH]; intros Hsub i; [reflexivity|].
    cbn [recommend_rows map].
    rewrite (main_lookup predictions_df enhanced_path row)
      by (apply Hsub; now left).
    cbn [sample_one length]. rewrite Nat.mod_1_r. cbn [nth].
    rewrite IH by (intros r Hr; apply Hsub; now right). reflexivity. }
  apply H. auto.
Qed.

(* ================================================================== *)
(** ** Time-stamped names order like their moments                     *)
(* ================================================================== *)

Lemma ascii_compare_refl (c : ascii) : Ascii.compare c c = Eq.
Proof. unfold Ascii.compare. apply N.compare_refl. Qed.

Lemma string_compare_refl (s : string) : String.compare s s = Eq.
Proof.
  induction s as [|c s IH]; cbn; [reflexivity|].
  now rewrite ascii_compare_refl.
Qed.

Lemma compare_app_prefix (p a b : string) :
  String.compare (p ++ a) (p ++ b) = String.compare a b.
Proof.
  induction p as [|c p IH]; cbn; [reflexivity|].
  now rewrite ascii_compare_refl.
Qed.

Lemma compare_app_same_length (a a' b b' : string) :
  String.length a = String.length a' ->
  String.compare (a ++ b) (a' ++ b')
  = then_compare (String.compare a a') (String.compare b b').
Proof.
  revert a'. induction a as [|c a IH]; intros [|c' a'] Hlen;
    try discriminate Hlen; cbn; [reflexivity|].
  destruct (Ascii.compare c c'); try reflexivity.
  apply IH. now injection Hlen.
Qed.

Lemma length_string_app (a b : string) :
  String.length (a ++ b) = (String.length a + String.length b)%nat.
Proof. induction a as [|c a IH]; cbn; [reflexivity | now rewrite IH]. Qed.

Lemma length_zero_padded (w : nat) (n : Z) :
  String.length (zero_padded w n) = w.
Proof.
  revert n. induction w as [|w IH]; intros n; cbn; [reflexivity|].
  rewrite length_string_app, IH. cbn. lia.
Qed.

Lemma digit_compare (n m : Z) :
  Ascii.compare (digit n) (digit m) = (n mod 10 ?= m mod 10).
Proof.
  unfold Ascii.compare, digit.
  pose proof (Z.mod_pos_bound n 10 ltac:(lia)).
  pose proof (Z.mod_pos_bound m 10 ltac:(lia)).
  rewrite !N_ascii_embedding by lia.
  rewrite <- (Z.add_compare_mono_l 48 (n mod 10) (m mod 10)).
  apply Z2N.inj_compare; lia.
Qed.

Lemma compare_by_digits (n m : Z) :
  then_compare (n / 10 ?= m / 10) (n mod 10 ?= m mod 10) = (n ?= m).
Proof.
  pose proof (Z.div_mod n 10 ltac:(lia)).
  pose proof (Z.div_mod m 10 ltac:(lia)).
  pose proof (Z.mod_pos_bound n 10 ltac:(lia)).
  pose proof (Z.mod_pos_bound m 10 ltac:(lia)).
  destruct (Z.compare_spec (n / 10) (m / 10)) as [E|L|G]; cbn.
  - destruct (Z.compare_spec (n mod 10) (m mod 10));
      symmetry; [apply Z.compare_eq_iff | apply Z.compare_lt_iff
                 | apply Z.compare_gt_iff]; lia.
  - symmetry. apply Z.compare_lt_iff. lia.
  - symmetry. apply Z.compare_gt_iff. lia.
Qed.

(** Numbers written with the same number of digits compare as their
    writings do. *)
Lemma compare_zero_padded (w : nat) :
  forall n m,
    0 <= n < 10 ^ Z.of_nat w -> 0 <= m < 10 ^ Z.of_nat w ->
    String.compare (zero_padded w n) (zero_padded w m) = (n ?= m).
Proof.
  induction w as [|w IH]; intros n m Hn Hm.
  - cbn in *. assert (n = 0) by lia. assert (m = 0) by lia. now subst.
  - cbn [zero_padded].
    rewrite compare_app_same_length by now rewrite !length_zero_padded.
    rewrite Nat2Z.inj_succ, Z.pow_succ_r in Hn, Hm by lia.
    rewrite IH by (split; [apply Z.div_pos; lia
                          | apply Z.div_lt_upper_bound; lia]).
    cbn [String.compare]. rewrite digit_compare.
    rewrite <- (compare_by_digits n m).
    now destruct (n mod 10 ?= m mod 10).
Qed.

Lemma then_compare_eq_r (c : comparison) : then_compare c Eq = c.
Proof. now destruct c. Qed.

Lemma valid_datetime_bounds (t : datetime) :
  valid_datetime t = true ->
  0 <= year t < 10 ^ Z.of_nat 4 /\ 0 <= month t < 10 ^ Z.of_nat 2
  /\ 0 <= day t < 10 ^ Z.of_nat 2 /\ 0 <= hour t < 10 ^ Z.of_nat 2
  /\ 0 <= minute t < 10 ^ Z.of_nat 2 /\ 0 <= second t < 10 ^ Z.of_nat 2.
Proof.
  unfold valid_datetime. rewrite !andb_true_iff.
  rewrite !Z.leb_le, !Z.ltb_lt.
  change (10 ^ Z.of_nat 4) with 10000. change (10 ^ Z.of_nat 2) with 100.
  lia.
Qed.

Lemma strftime_length (t : datetime) :
  String.length (strftime_Ymd_HMS t) = 15%nat.
Proof.
  unfold strftime_Ymd_HMS.
  rewrite !length_string_app, !length_zero_padded. reflexivity.
Qed.

Lemma strftime_compare (a b : datetime) :
  valid_datetime a = true -> valid_datetime b = true ->
  String.compare (strftime_Ymd_HMS a) (strftime_Ymd_HMS b)
  = datetime_compare a b.
Proof.
  intros Ha Hb.
  destruct (valid_datetime_bounds a Ha) as (Ya & Ma & Da & ha & ma & sa).
  destruct (valid_datetime_bounds b Hb) as (Yb & Mb & Db & hb & mb & sb).
  unfold strftime_Ymd_HMS, datetime_compare.
  rewrite compare_app_same_length by now rewrite !length_zero_padded.
  rewrite compare_app_same_length by now rewrite !length_zero_padded.
  rewrite compare_app_same_length by now rewrite !length_zero_padded.
  rewrite compare_app_prefix.
  rewrite compare_app_same_length by now rewrite !length_zero_padded.
  rewrite compare_app_same_length by now rewrite !length_zero_padded.
  now rewrite !compare_zero_padded.
Qed.

Lemma stamped_name_compare (stem : string) (a b : datetime) :
  valid_datetime a = true -> valid_datetime b = true ->
  String.compare (stamped_name stem a) (stamped_name stem b)
  = datetime_compare a b.
Proof.
  intros Ha Hb. unfold stamped_name.
  rewrite compare_app_prefix.
  rewrite compare_app_same_length by now rewrite !strftime_length.
  rewrite string_compare_refl, then_compare_eq_r.
  now apply strftime_compare.
Qed.

Lemma datetime_compare_number (a b : datetime) :
  valid_datetime a = true -> valid_datetime b = true ->
  datetime_compare a b = (stamp_number a ?= stamp_number b).
Proof.
  intros Ha Hb.
  destruct (valid_datetime_bounds a Ha) as (Ya & Ma & Da & ha & ma & sa).
  destruct (valid_datetime_bounds b Hb) as (Yb & Mb & Db & hb & mb & sb).
  change (10 ^ Z.of_nat 4) with 10000 in *.
  change (10 ^ Z.of_nat 2) with 100 in *.
  unfold datetime_compare.
  repeat (match goal with
          | |- context [?x ?= ?y] =>
              lazymatch x with
              | stamp_number _ => fail
              | _ => destruct (Z.compare_spec x y)
              end
          end; cbn [then_compare]);
    symmetry;
    first [ apply Z.compare_eq_iff | apply Z.compare_lt_iff
          | apply Z.compare_gt_iff ];
    unfold stamp_number; lia.
Qed.

Lemma stamped_name_ltb (stem : string) (a b : datetime) :
  valid_datetime a = true -> valid_datetime b = true ->
  String.ltb (stamped_name stem a) (stamped_name stem b)
  = (stamp_number a <? stamp_number b).
Proof.
  intros Ha Hb. unfold String.ltb, Z.ltb.
  now rewrite stamped_name_compare, datetime_compare_number.
Qed.

Lemma max_from_spec (stem : string) (ts : list datetime) :
  Forall (fun t => valid_datetime t = true) ts ->
  forall best, valid_datetime best = true ->
    exists latest,
      (latest = best \/ In latest ts)
      /\ valid_datetime latest = true
      /\ max_from (stamped_name stem best) (map (stamped_name stem) ts)
         = stamped_name stem latest
      /\ stamp_number best <= stamp_number latest
      /\ forall t, In t ts -> stamp_number t <= stamp_number latest.
Proof.
  induction 1 as [|t ts Ht _ IH]; intros best Hbest; cbn [map max_from].
  - exists best. split; [now left|]. split; [exact Hbest|].
    split; [reflexivity|]. split; [lia|]. intros t [].
  - rewrite (stamped_name_ltb stem best t Hbest Ht).
    destruct (Z.ltb_spec (stamp_number best) (stamp_number t)) as [Hlt|Hge].
    + destruct (IH t Ht) as (l & Hin & Hv & Hmax & Hb & Hall).
      exists l. split; [cbn [In]; destruct Hin as [->|Hin]; auto|].
      split; [exact Hv|].
      split; [exact Hmax|]. split; [lia|].
      intros t' [<-|Ht']; [exact Hb|now apply Hall].
    + destruct (IH best Hbest) as (l & Hin & Hv & Hmax & Hb & Hall).
      exists l. split; [cbn [In]; destruct Hin as [->|Hin]; auto|].
      split; [exact Hv|].
      split; [exact Hmax|]. split; [exact Hb|].
      intros t' [<-|Ht']; [lia|now apply Hall].
Qed.

(** X16. The names are ordered as the moments are: the name that
    [analyze_trends] or [save_data] gives a file at one moment compares
    to the name given at another as the first moment to the second. *)
Theorem file_names_ordered_by_time (stem : string) (a b : datetime) :
  valid_datetime a = true -> valid_datetime b = true ->
  String.compare (stamped_name stem a) (stamped_name stem b)
  = datetime_compare a b.
Proof. apply stamped_name_compare. Qed.

(** X17. The newest file wins.  Among files named by [analyze_trends] (or
    [save_data]) from the moments [ts], [max(files)] of
    [_load_latest_trend_analysis] and [_load_latest_reddit_data] is the
    file of a moment of [ts] that none of [ts] is later than, whatever
    the order in which [glob] lists the files; on no file at all [max]
    raises. *)
Theorem latest_file_is_newest (stem : string) (ts : list datetime) :
  Forall (fun t => valid_datetime t = true) ts ->
  match py_max (map (stamped_name stem) ts) with
  | None => ts = []
  | Some file =>
      exists latest,
        In latest ts /\ file = stamped_name stem latest
        /\ forall t, In t ts -> datetime_compare t latest <> Gt
  end.
Proof.
  intros Hv. destruct ts as [|t0 ts]; cbn [map py_max]; [reflexivity|].
  pose proof (Forall_inv Hv) as H0. pose proof (Forall_inv_tail Hv) as Hts.
  destruct (max_from_spec stem ts Hts t0 H0)
    as (l & Hin & Hl & Hmax & Hb & Hall).
  exists l. split; [cbn [In]; destruct Hin as [->|Hin]; auto|].
  split; [exact Hmax|].
  intros t Ht.
  assert (valid_datetime t = true) as Hvt
    by (rewrite Forall_forall in Hv; now apply Hv).
  rewrite (datetime_compare_number t l Hvt Hl).
  apply Z.compare_le_iff.
  destruct Ht as [<-|Ht]; [exact Hb|now apply Hall].
Qed.

(* ================================================================== *)
(** ** utils.py: [get_data_path]                                       *)
(* ================================================================== *)




Lemma entry_kind_dir (w : World) (name : string) :
  entry_kind w name = IsDir <-> In name (directories w).
Proof.
  unfold entry_kind.
  destruct (existsb (String.eqb name) (directories w)) eqn:E.
  - split; [|reflexivity]. intros _.
    apply existsb_exists in E as (d & Hd & Heq).
    apply String.eqb_eq in Heq. now subst.
  - split.
    + destruct (files w name); discriminate.
    + intros Hin. exfalso.
      assert (existsb (String.eqb name) (directories w) = true)
        by (apply existsb_exists; exists name; split;
            [exact Hin | apply String.eqb_refl]).
      congruence.
Qed.

Lemma kind_at_dir_mono (w w1 : World) (a : string) (rcur : list string) :
  grows w w1 -> kind_at w a rcur = IsDir -> kind_at w1 a rcur = IsDir.
Proof.
  intros (_ & _ & Hd). unfold kind_at.
  destruct (forallb (String.eqb "..") rcur); [reflexivity|].
  rewrite !entry_kind_dir. apply Hd.
Qed.

Lemma walk_mono (w w1 : World) (a : string) :
  grows w w1 ->
  forall components rcur reached,
    walk w a rcur components = inr reached ->
    walk w1 a rcur components = inr reached.
Proof.
  intros G. induction components as [|c rest IH]; intros rcur reached;
    cbn [walk]; [auto|].
  destruct (kind_at w a rcur) eqn:K; try discriminate.
  rewrite (kind_at_dir_mono w w1 a rcur G K). apply IH.
Qed.



Lemma is_dir_spec (w : World) (a : string) (rparts : list string) :
  is_dir w a rparts = true
  <-> has_null_byte rparts = false
      /\ exists reached,
           walk w a [] (rev rparts) = inr reached
           /\ kind_at w a reached = IsDir.
Proof.
  unfold is_dir. destruct (has_null_byte rparts).
  - split; [discriminate | intros [? _]; discriminate].
  - destruct (walk w a [] (rev rparts)) as [e|reached].
    + split; [discriminate | intros (_ & r & H & _); discriminate].
    + destruct (kind_at w a reached) eqn:K.
      * split; [|reflexivity]. intros _. split; [reflexivity|]. eauto.
      * split; [discriminate|]. intros (_ & r & [= <-] & K'). congruence.
      * split; [discriminate|]. intros (_ & r & [= <-] & K'). congruence.
Qed.

Lemma is_dir_mono (w w1 : World) (a : string) (rparts : list string) :
  grows w w1 -> is_dir w a rparts = true -> is_dir w1 a rparts = true.
Proof.
  intros G. rewrite !is_dir_spec. intros (Hn & reached & Hw & K).
  split; [exact Hn|]. exists reached. split.
  - now apply (walk_mono w w1 a G).
  - now apply (kind_at_dir_mono w w1 a reached G).
Qed.


Lemma has_null_byte_tail (c : string) (rparts : list string) :
  has_null_byte (c :: rparts) = false -> has_null_byte rparts = false.
Proof.
  unfold has_null_byte. cbn [existsb]. intros H.
  now apply orb_false_iff in H.
Qed.









(* ================================================================== *)
(** ** The added properties at concrete inputs                         *)
(* ================================================================== *)

Example retry_default_run :
  _retry_with_backoff never_refuses sample_calls 3 1
  = mkRetryRun (Returned 7%nat) 3 [1; 2].
Proof. reflexivity. Qed.

Example retry_gives_up :
  _retry_with_backoff never_refuses
    (fun k => inl (lit "rate_limit") : pystr + nat) 3 1
  = mkRetryRun (Reraised (lit "rate_limit")) 3 [1; 2].
Proof. reflexivity. Qed.

(** The sleeps that [time.sleep] refuses end the call after the attempt
    before them. *)
Example retry_sleep_refused :
  _retry_with_backoff never_refuses sample_calls 3 (2 ^ 62)
  = mkRetryRun (SleepRaised sleep_OverflowError) 1 []
  /\ _retry_with_backoff never_refuses sample_calls 3 (-1)
     = mkRetryRun (SleepRaised sleep_ValueError) 1 []
  /\ _retry_with_backoff (fun k _ => Nat.eqb k 1) sample_calls 3 1
     = mkRetryRun (SleepRaised sleep_OSError) 2 [1]
  /\ time_sleep (fun _ => false) 9223372036 = None
  /\ time_sleep (fun _ => false) 9223372037 = Some sleep_OverflowError
  /\ time_sleep (fun _ => false) (- 2 ^ 70) = Some sleep_OverflowError.
Proof. repeat split. Qed.


Lemma busy_env_steady : steady busy_env.
Proof. split; [reflexivity | intros i; cbn; lia]. Qed.

Lemma quick_env_steady : steady quick_env.
Proof. split; [reflexivity | intros i; cbn; lia]. Qed.

Lemma down_env_steady : steady down_env.
Proof. split; [reflexivity | intros i; cbn; lia]. Qed.

(** The bound of 151 requests is reached. *)
Example wait_151_requests :
  option_map (fun run => (wait_outcome run, length (wait_polls run)))
    (_wait_for_result 152 busy_env 1000)
  = Some (WaitRaise TimeoutError, 151%nat).
Proof. vm_compute. reflexivity. Qed.

Example wait_quick_run : _wait_for_result 10 quick_env 0 = Some quick_run.
Proof. vm_compute. reflexivity. Qed.

Lemma wait_sends_at_most_151_requests_witness :
  exists run,
    (forall fuel, (152 <= fuel)%nat ->
                  _wait_for_result fuel busy_env 1000 = Some run)
    /\ (length (wait_polls run) <= 151)%nat
    /\ Forall (fun t => t - 1000 < 600 * ticks_per_second busy_env)
         (wait_polls run)
    /\ Forall (fun s => 2 <= s <= 30) (wait_sleeps run).
Proof.
  apply (wait_sends_at_most_151_requests busy_env 1000).
  split; [reflexivity | intros i; cbn; lia].
Defined.

Lemma wait_returns_ready_sample_witness :
  exists n response data result,
    length (wait_polls quick_run) = S n
    /\ reply quick_env n = Replied response
    /\ ~ (400 <= status_code response < 600)
    /\ body response = Some data
    /\ dict_get data "status" = Some (JStr "Ready")
    /\ dict_get data "result" = Some result
    /\ dict_get result "sample" = Some (JStr "https://cdn/x.png")
    /\ truthy (JStr "https://cdn/x.png") = true
    /\ forall k, (k < n)%nat -> decisive quick_env k = false.
Proof.
  apply (wait_returns_ready_sample quick_env 0 10 quick_run
           (JStr "https://cdn/x.png")).
  - split; [reflexivity | intros i; cbn; lia].
  - vm_compute. reflexivity.
  - reflexivity.
Defined.

Lemma wait_errors_end_in_timeout_witness :
  exists run,
    (forall fuel, (152 <= fuel)%nat ->
                  _wait_for_result fuel down_env 0 = Some run)
    /\ wait_outcome run = WaitRaise TimeoutError
    /\ 600 * ticks_per_second down_env <= wait_end run - 0.
Proof.
  apply (wait_errors_end_in_timeout down_env 0).
  - split; [reflexivity | intros i; cbn; lia].
  - intros i. left. reflexivity.
Defined.

Example relevant_examples :
  _has_relevant_keywords (Some (lit "Bedroom makeover")) = true
  /\ _has_relevant_keywords (Some (lit "HIGHLIGHTS of the week")) = true
  /\ _has_relevant_keywords (Some (lit "My new sneakers")) = false
  /\ _has_relevant_keywords None = false.
Proof. repeat split. Qed.

Lemma relevant_inside_longer_text_witness :
  _has_relevant_keywords
    (Some (lit "A bed" ++ lit "room" ++ lit "mate")) = true.
Proof.
  apply (relevant_inside_longer_text (lit "A bed") (lit "room") (lit "mate")).
  reflexivity.
Defined.

Lemma short_text_not_relevant_witness :
  exists t, Some (lit "Warm") = Some t /\ (4 <= length t)%nat.
Proof.
  apply (short_text_not_relevant (Some (lit "Warm"))). reflexivity.
Defined.

Example clean_text_examples :
  _clean_text (Some (lit "  see [this](http://a.b/c) and http://x.y/z?q=1 now  "))
  = lit "see  and  now"
  /\ _clean_text (Some (lit "https://only.a/link")) = lit ""
  /\ _clean_text (Some (lit "[a[x](y)](b) http")) = lit "](b) http"
  /\ _clean_text None = lit "".
Proof. repeat split. Qed.

Lemma clean_text_plain_witness :
  _clean_text (Some (lit "  nice jacket ")) = str_strip (lit "  nice jacket ").
Proof.
  apply (clean_text_plain (lit "  nice jacket ")).
  - cbn. intros H.
    repeat (destruct H as [H|H]; [discriminate H|]). exact H.
  - reflexivity.
Defined.

Example extract_sample : _extract_post_data (Some sample_submission)
                         = ExtractData sample_post_data.
Proof. vm_compute. reflexivity. Qed.

Example extract_edge_cases :
  _extract_post_data None = ExtractValueError
  /\ _extract_post_data
       (Some (mkSubmission (lit "Warm tones") None None 1 0)) = ExtractNone
  /\ _extract_post_data
       (Some (mkSubmission (lit "fit check") None
                (Some [mkComment (lit "http://x.y/lighting") false]) 1 1))
     = ExtractNone.
Proof. repeat split. Qed.

Lemma extracted_post_shape_witness :
  stripped (post_t sample_post_data)
  /\ post_d sample_post_data <> Some []
  /\ match post_c sample_post_data with
     | None => True
     | Some cs =>
         (1 <= length cs <= 3)%nat
         /\ Forall (fun c => no_url c /\ stripped c) cs
     end
  /\ (_has_relevant_keywords (Some (post_t sample_post_data)) = true
      \/ _has_relevant_keywords (post_d sample_post_data) = true
      \/ exists c cs, post_c sample_post_data = Some cs /\ In c cs
                      /\ _has_relevant_keywords (Some c) = true).
Proof.
  apply (extracted_post_shape (Some sample_submission) sample_post_data).
  vm_compute. reflexivity.
Defined.

Example recommendations_example :
  create_customer_recommendations
    [mkPredictionRow 11 "Pants"%string 90; mkPredictionRow 12 "Shoes"%string 55;
     mkPredictionRow 13 "Pants"%string 70]
    [("Pants"%string, ["a.png"; "b.png"]%string); ("Shoes"%string, ["c.png"%string])]
    (fun i => (i + 1)%nat)
  = inr [mkRecommendationRow 11 "Pants"%string "b.png"%string 90;
         mkRecommendationRow 12 "Shoes"%string "c.png"%string 55;
         mkRecommendationRow 13 "Pants"%string "b.png"%string 70].
Proof. reflexivity. Qed.

Example recommendations_key_error :
  create_customer_recommendations
    [mkPredictionRow 11 "Pants"%string 90; mkPredictionRow 12 "Hats"%string 55]
    [("Pants"%string, ["a.png"%string])] (fun _ => 0%nat)
  = inl (KeyError "Hats").
Proof. reflexivity. Qed.

Example stamped_names :
  map trend_analysis_name sample_moments
  = [ "trend_analysis_20250131_090502.json";
      "trend_analysis_20251201_000000.json";
      "trend_analysis_20250228_235959.json" ]%string
  /\ py_max (map trend_analysis_name sample_moments)
     = Some "trend_analysis_20251201_000000.json"%string
  /\ py_max (map reddit_data_name []) = None.
Proof. repeat split. Qed.

Lemma file_names_ordered_by_time_witness :
  String.compare
    (stamped_name "reddit_data_" (mkDatetime 2025 1 31 9 5 2))
    (stamped_name "reddit_data_" (mkDatetime 2025 12 1 0 0 0))
  = datetime_compare (mkDatetime 2025 1 31 9 5 2) (mkDatetime 2025 12 1 0 0 0).
Proof.
  apply (file_names_ordered_by_time "reddit_data_"
           (mkDatetime 2025 1 31 9 5 2) (mkDatetime 2025 12 1 0 0 0));
    reflexivity.
Defined.

Lemma latest_file_is_newest_witness :
  exists latest,
    In latest sample_moments
    /\ "trend_analysis_20251201_000000.json"%string
       = stamped_name "trend_analysis_" latest
    /\ forall t, In t sample_moments -> datetime_compare t latest <> Gt.
Proof.
  exact (latest_file_is_newest "trend_analysis_" sample_moments
           ltac:(repeat constructor)).
Defined.

(** How [get_data_path] joins paths and makes directories: the default
    sub-directory is the data directory itself; the path is normalised;
    a rooted sub-directory replaces the project root; missing parents
    are made, also on the way through ".."; a file of that name, or in
    the way, makes the call raise. *)
Example get_data_path_examples :
  get_data_path "/r/src/utils.py" "" clash_world
  = (clash_world, [EvMkdir "/r/data"], inr "/r/data"%string)
  /\ get_data_path "/r/src/utils.py" "output//masks/./" clash_world
     = (mkWorld "20240101_1200" (files clash_world)
          [ "/r/data/output/masks"; "/r/data/output"; "/r/data"; "/r" ]%string,
        [EvMkdir "/r/data/output/masks"], inr "/r/data/output/masks"%string)
  /\ get_data_path "/r/src/utils.py" "/etc" clash_world
     = (mkWorld "20240101_1200" (files clash_world)
          [ "/etc"; "/r/data"; "/r" ]%string,
        [EvMkdir "/etc"], inr "/etc"%string)
  /\ get_data_path "/r/src/utils.py" "a/../b" clash_world
     = (mkWorld "20240101_1200" (files clash_world)
          [ "/r/data/b"; "/r/data/a"; "/r/data"; "/r" ]%string,
        [EvMkdir "/r/data/a/../b"], inr "/r/data/a/../b"%string)
  /\ get_data_path "/r/src/utils.py" "reddit" clash_world
     = (clash_world, [EvMkdir "/r/data/reddit"], inl FileExistsError)
  /\ get_data_path "/r/src/utils.py" "reddit/2024" clash_world
     = (clash_world, [EvMkdir "/r/data/reddit/2024"], inl NotADirectoryError)
  /\ get_data_path "src/utils.py" "" sample_world
     = (mkWorld "20240101_1200" (files sample_world) ["data"%string],
        [EvMkdir "data"], inr "data"%string).
Proof. repeat split. Qed.

